(** * SGP-mode virtual CPU of Symbulation: instruction set and jump table

    A shallow embedding of [source/sgp_mode/CPU.h] (class [CPU]) and of the
    instruction definitions of namespace [inst] (the [INST] macro bodies),
    followed by the properties of the instruction engine, the jump-table
    builder, the resource protocol and the reproduction coordinator.

    Conventions of the embedding:
    - a [uint32_t] register or stack cell is a [Z]; every arithmetic result is
      reduced with [wrap32] the way unsigned 32-bit arithmetic does;
    - [double] and [float] quantities (points, scores, penalties) are values
      of an arithmetic interface [FloatOps]; the instructions are written
      against the interface, [B64Ops] instantiates it with IEEE 754 binary64
      arithmetic and [QOps] with exact rationals;
    - objects reached through [emp::Ptr] (organisms) live in a store indexed
      by address; dereferencing an address that is not in the store, and
      indexing a vector or the register file out of range, is undefined
      behaviour in the source and [None] here. *)

From Stdlib Require Import ZArith QArith Qminmax Lia Lqa Bool.
From Stdlib Require Import Floats.
From stdpp Require Import base option list gmap.
From Stdlib Require Import Ascii String.
From stdpp Require Import strings pretty.

Local Open Scope Z_scope.

(** ** Unsigned 32-bit values *)

Definition wrap32 (z : Z) : Z := z mod 2 ^ 32.

Definition u32 (z : Z) : Prop := 0 <= z < 2 ^ 32.

(** ** Floating-point interface

    The operations the instructions apply to [double]/[float] values.
    [flit] reads a decimal literal of the source ([0.75], [0.20], [1.0],
    [0.0]); [fround] is the narrowing of a [double] result back into a
    [float] variable ([score *= 0.75] on a [float score]). *)

Class FloatOps := {
  num : Type;
  flit : Q -> num;
  fadd : num -> num -> num;
  fsub : num -> num -> num;
  fmul : num -> num -> num;
  fneg : num -> num;
  fmin : num -> num -> num;
  fgt : num -> num -> bool;
  fneq : num -> num -> bool;
  fround : num -> num
}.

(** Exact rational arithmetic: no rounding, so narrowing is the identity. *)
#[export] Instance QOps : FloatOps := {|
  num := Q;
  flit := fun q => q;
  fadd := Qplus;
  fsub := Qminus;
  fmul := Qmult;
  fneg := Qopp;
  fmin := Qmin;
  fgt := fun x y => negb (Qle_bool x y);
  fneq := fun x y => negb (Qeq_bool x y);
  fround := fun q => q
|}.

(** IEEE 754 binary64, the [double] of the source, with the operations of
    the hardware ([PrimFloat]).

    A literal is the quotient of its numerator by its denominator, both
    converted to binary64: the division rounds to nearest, so the literal is
    the binary64 value nearest to the decimal whenever both are below [2^53]
    in magnitude, as for [0.20], [0.75], [1.0] and [0.0]. *)
Definition b64_of_Z (z : Z) : float :=
  SF2Prim (binary_normalize prec emax z 0 false).

Definition b64_lit (q : Q) : float :=
  PrimFloat.div (b64_of_Z (Qnum q)) (b64_of_Z (Z.pos (Qden q))).

(** [fmin] of the C library: a NaN argument is ignored, the result is NaN
    only when both arguments are. *)
Definition b64_fmin (x y : float) : float :=
  if PrimFloat.is_nan x then y
  else if PrimFloat.is_nan y then x
  else if PrimFloat.ltb y x then y else x.

(** Narrowing a [double] into a [float] variable: rounding to binary32
    (24 bits of precision, exponents up to 128), the result read back as a
    [double]. Zeros, infinities and NaN are kept. *)
Definition b64_to_float (x : float) : float :=
  match Prim2SF x with
  | S754_finite s m e => SF2Prim (binary_round 24 128 s m e)
  | _ => x
  end.

(** [x > y] is [y < x]; [x != y] is the negation of [x == y], hence true
    when either side is NaN. *)
Definition B64Ops : FloatOps := {|
  num := float;
  flit := b64_lit;
  fadd := PrimFloat.add;
  fsub := PrimFloat.sub;
  fmul := PrimFloat.mul;
  fneg := PrimFloat.opp;
  fmin := b64_fmin;
  fgt := fun x y => PrimFloat.ltb y x;
  fneq := fun x y => negb (PrimFloat.eqb x y);
  fround := b64_to_float
|}.

(** A binary64 value as a quantity of [B64Ops]. *)
Definition b64 (x : float) : @num B64Ops := x.

(** ** Data model *)

(** [emp::Ptr<Organism>]: the address of an organism in the store. *)
Definition OrgPtr := nat.

(** [emp::WorldPosition] (Empirical): an index and a population id, with the
    reserved index [invalid_id = (uint32_t) -1]. *)
Record WorldPosition := { pos_index : Z; pos_pop_id : Z }.

Definition invalid_id : Z := 2 ^ 32 - 1.

Definition IsValid (p : WorldPosition) : bool := negb (pos_index p =? invalid_id).

(** The instruction library of the SGP mode (the names [PrintCode] lists,
    the two jump instructions and the global anchor). *)
Inductive OpCode :=
  | Nop | GlobalAnchor
  | JumpIfNEq | JumpIfLess
  | Increment | Decrement | ShiftLeft | ShiftRight
  | Add | Subtract | Nand
  | Push | Pop | SwapStack | Swap
  | Reproduce | PrivateIO | SharedIO | Donate | Steal
  | ReuptakePublic | ReuptakePrivate | InternalPrivate | InternalShared.

#[export] Instance OpCode_eq_dec : EqDecision OpCode.
Proof. solve_decision. Defined.

(** The tag of an instruction is an opaque bit pattern. *)
Definition Tag := Z.

(** [sgpl::Instruction]: an opcode, three register indices and a tag. *)
Record Instruction := {
  op_code : OpCode;
  arg0 : nat; arg1 : nat; arg2 : nat;
  tag : Tag
}.

Definition Program := list Instruction.

(** [sgpl::JumpTable]: the global anchors. [MatchRegulated t] lists the ids
    of the anchors matching [t], best match first; [GetVal u] is the program
    position of anchor [u]. *)
Record JumpTable := {
  MatchRegulated : Tag -> list nat;
  GetVal : nat -> nat
}.

(** [sgpl::Core]: the register file and the program counter. *)
Record Core := {
  registers : list Z;
  program_counter : nat
}.

Definition GetProgramCounter (c : Core) : nat := program_counter c.

Definition JumpToIndex (c : Core) (idx : nat) : Core :=
  {| registers := registers c; program_counter := idx |}.

(** [sgpl::Cpu]: the active core, if any, and the global anchor table the
    cores share. *)
Record Cpu := {
  active_core : option Core;
  global_jump_table : JumpTable
}.

Definition HasActiveCore (c : Cpu) : bool :=
  match active_core c with Some _ => true | None => false end.

Section Machine.

Context {F : FloatOps}.

(** Modelled from the spec: the organism interface of [Organism.h] (role
    query, points balance with credit and debit, optional host reference of
    a symbiont). *)
Record Organism := {
  org_is_host : bool;
  org_points : num;
  org_host : option OrgPtr
}.

Definition AddPoints (o : Organism) (p : num) : Organism :=
  {| org_is_host := org_is_host o;
     org_points := fadd (org_points o) p;
     org_host := org_host o |}.

(** The configuration values the instructions read. *)
Record Config := {
  HOST_REPRO_RES : num;
  SYM_HORIZ_TRANS_RES : num;
  RANDOM_IO_INPUT : bool;
  DONATION_STEAL_INST : bool;
  DONATE_PENALTY : num;
  STEAL_PENALTY : num;
  MUTATION_SIZE : num
}.

(** Modelled from the spec: the per-organism state of [CPUState.h]. The two
    stacks, the input buffer (values are appended at its end), the jump
    table, the pending-reproduction marker ([-1] when idle), the candidate
    location, the address of the owning organism (the field the source calls
    [host]), the two internal-environment stacks, the [internalPrivate] flag
    and the task-completion vectors. *)
Record CPUState := {
  stack : list Z;
  stack2 : list Z;
  input_buf : list Z;
  jump_table : list nat;
  in_progress_repro : Z;
  location : WorldPosition;
  host : OrgPtr;
  internalEnvironment : list Z;
  internalEnvironmentPrivate : list Z;
  internalPrivate : bool;
  self_completed : list nat;
  shared_completed : list nat
}.

(** The task set: its cardinality and its scorer
    [CheckTasks(state, output, shared)], a [float]. *)
Record TaskSet := {
  NumTasks : nat;
  CheckTasks : CPUState -> Z -> bool -> num
}.

(** The world, as far as a CPU reaches it: the organism store, the
    configuration, the task set, the reproduction queue, the three data
    monitors, and the values written to standard output. *)
Record SGPWorld := {
  organisms : gmap OrgPtr Organism;
  config : Config;
  task_set : TaskSet;
  to_reproduce : list (OrgPtr * WorldPosition);
  SymEarnedData : list num;
  SymDonatedData : list num;
  SymStolenData : list num;
  console : list Z
}.

(** What an instruction's [run] receives: the core, the state and (through
    [state.world]) the world. *)
Record Machine := {
  core : Core;
  state : CPUState;
  world : SGPWorld
}.

End Machine.

Section Instructions.

Context {F : FloatOps}.

(** ** Field updates *)

Definition set_core (m : Machine) (c : Core) : Machine :=
  {| core := c; state := state m; world := world m |}.

Definition set_state (m : Machine) (s : CPUState) : Machine :=
  {| core := core m; state := s; world := world m |}.

Definition set_world (m : Machine) (w : SGPWorld) : Machine :=
  {| core := core m; state := state m; world := w |}.

Definition set_stack (s : CPUState) (l : list Z) : CPUState :=
  {| stack := l; stack2 := stack2 s; input_buf := input_buf s;
     jump_table := jump_table s; in_progress_repro := in_progress_repro s;
     location := location s; host := host s;
     internalEnvironment := internalEnvironment s;
     internalEnvironmentPrivate := internalEnvironmentPrivate s;
     internalPrivate := internalPrivate s;
     self_completed := self_completed s;
     shared_completed := shared_completed s |}.

Definition swap_stacks (s : CPUState) : CPUState :=
  {| stack := stack2 s; stack2 := stack s; input_buf := input_buf s;
     jump_table := jump_table s; in_progress_repro := in_progress_repro s;
     location := location s; host := host s;
     internalEnvironment := internalEnvironment s;
     internalEnvironmentPrivate := internalEnvironmentPrivate s;
     internalPrivate := internalPrivate s;
     self_completed := self_completed s;
     shared_completed := shared_completed s |}.

(** [state.input_buf.push(v)] *)
Definition push_input (s : CPUState) (v : Z) : CPUState :=
  {| stack := stack s; stack2 := stack2 s; input_buf := input_buf s ++ [v];
     jump_table := jump_table s; in_progress_repro := in_progress_repro s;
     location := location s; host := host s;
     internalEnvironment := internalEnvironment s;
     internalEnvironmentPrivate := internalEnvironmentPrivate s;
     internalPrivate := internalPrivate s;
     self_completed := self_completed s;
     shared_completed := shared_completed s |}.

Definition set_jump_table (s : CPUState) (jt : list nat) : CPUState :=
  {| stack := stack s; stack2 := stack2 s; input_buf := input_buf s;
     jump_table := jt; in_progress_repro := in_progress_repro s;
     location := location s; host := host s;
     internalEnvironment := internalEnvironment s;
     internalEnvironmentPrivate := internalEnvironmentPrivate s;
     internalPrivate := internalPrivate s;
     self_completed := self_completed s;
     shared_completed := shared_completed s |}.

Definition set_in_progress_repro (s : CPUState) (i : Z) : CPUState :=
  {| stack := stack s; stack2 := stack2 s; input_buf := input_buf s;
     jump_table := jump_table s; in_progress_repro := i;
     location := location s; host := host s;
     internalEnvironment := internalEnvironment s;
     internalEnvironmentPrivate := internalEnvironmentPrivate s;
     internalPrivate := internalPrivate s;
     self_completed := self_completed s;
     shared_completed := shared_completed s |}.

Definition set_internalEnvironment (s : CPUState) (l : list Z) : CPUState :=
  {| stack := stack s; stack2 := stack2 s; input_buf := input_buf s;
     jump_table := jump_table s; in_progress_repro := in_progress_repro s;
     location := location s; host := host s;
     internalEnvironment := l;
     internalEnvironmentPrivate := internalEnvironmentPrivate s;
     internalPrivate := internalPrivate s;
     self_completed := self_completed s;
     shared_completed := shared_completed s |}.

Definition set_internalEnvironmentPrivate (s : CPUState) (l : list Z) : CPUState :=
  {| stack := stack s; stack2 := stack2 s; input_buf := input_buf s;
     jump_table := jump_table s; in_progress_repro := in_progress_repro s;
     location := location s; host := host s;
     internalEnvironment := internalEnvironment s;
     internalEnvironmentPrivate := l;
     internalPrivate := internalPrivate s;
     self_completed := self_completed s;
     shared_completed := shared_completed s |}.

Definition set_internalPrivate (s : CPUState) (b : bool) : CPUState :=
  {| stack := stack s; stack2 := stack2 s; input_buf := input_buf s;
     jump_table := jump_table s; in_progress_repro := in_progress_repro s;
     location := location s; host := host s;
     internalEnvironment := internalEnvironment s;
     internalEnvironmentPrivate := internalEnvironmentPrivate s;
     internalPrivate := b;
     self_completed := self_completed s;
     shared_completed := shared_completed s |}.

Definition set_completed (s : CPUState) (self shared : list nat) : CPUState :=
  {| stack := stack s; stack2 := stack2 s; input_buf := input_buf s;
     jump_table := jump_table s; in_progress_repro := in_progress_repro s;
     location := location s; host := host s;
     internalEnvironment := internalEnvironment s;
     internalEnvironmentPrivate := internalEnvironmentPrivate s;
     internalPrivate := internalPrivate s;
     self_completed := self; shared_completed := shared |}.

(** Writing organism [o] back at address [p]. *)
Definition set_org (w : SGPWorld) (p : OrgPtr) (o : Organism) : SGPWorld :=
  {| organisms := <[p := o]> (organisms w); config := config w;
     task_set := task_set w; to_reproduce := to_reproduce w;
     SymEarnedData := SymEarnedData w; SymDonatedData := SymDonatedData w;
     SymStolenData := SymStolenData w; console := console w |}.

(** [world->to_reproduce.push_back(e)] *)
Definition push_to_reproduce (w : SGPWorld) (e : OrgPtr * WorldPosition) : SGPWorld :=
  {| organisms := organisms w; config := config w;
     task_set := task_set w; to_reproduce := to_reproduce w ++ [e];
     SymEarnedData := SymEarnedData w; SymDonatedData := SymDonatedData w;
     SymStolenData := SymStolenData w; console := console w |}.

(** [GetSymEarnedDataNode().WithMonitor(m.AddDatum(x))] and its siblings. *)
Definition add_SymEarned (w : SGPWorld) (x : num) : SGPWorld :=
  {| organisms := organisms w; config := config w;
     task_set := task_set w; to_reproduce := to_reproduce w;
     SymEarnedData := SymEarnedData w ++ [x]; SymDonatedData := SymDonatedData w;
     SymStolenData := SymStolenData w; console := console w |}.

Definition add_SymDonated (w : SGPWorld) (x : num) : SGPWorld :=
  {| organisms := organisms w; config := config w;
     task_set := task_set w; to_reproduce := to_reproduce w;
     SymEarnedData := SymEarnedData w; SymDonatedData := SymDonatedData w ++ [x];
     SymStolenData := SymStolenData w; console := console w |}.

Definition add_SymStolen (w : SGPWorld) (x : num) : SGPWorld :=
  {| organisms := organisms w; config := config w;
     task_set := task_set w; to_reproduce := to_reproduce w;
     SymEarnedData := SymEarnedData w; SymDonatedData := SymDonatedData w;
     SymStolenData := SymStolenData w ++ [x]; console := console w |}.

(** [std::cout << "Host : " << v] *)
Definition print_host (w : SGPWorld) (v : Z) : SGPWorld :=
  {| organisms := organisms w; config := config w;
     task_set := task_set w; to_reproduce := to_reproduce w;
     SymEarnedData := SymEarnedData w; SymDonatedData := SymDonatedData w;
     SymStolenData := SymStolenData w; console := console w ++ [v] |}.

(** ** Register access: reading and writing through an operand pointer *)

Definition get_reg (c : Core) (i : nat) : option Z := registers c !! i.

Definition write_reg (c : Core) (i : nat) (v : Z) : Core :=
  {| registers := <[i := v]> (registers c);
     program_counter := program_counter c |}.

Definition set_reg (c : Core) (i : nat) (v : Z) : option Core :=
  if decide (i < length (registers c))%nat then Some (write_reg c i v) else None.

(** One-register update: [a] receives [f] of its own value. *)
Definition upd_reg (f : Z -> Z) (ra : nat) (m : Machine) : option Machine :=
  a ← get_reg (core m) ra;
  c ← set_reg (core m) ra (f a);
  Some (set_core m c).

(** Three-register update: [a] receives [f] of the values of [b] and [c]. *)
Definition upd_reg2 (f : Z -> Z -> Z) (ra rb rc : nat) (m : Machine) : option Machine :=
  b ← get_reg (core m) rb;
  c ← get_reg (core m) rc;
  k ← set_reg (core m) ra (f b c);
  Some (set_core m k).

(** ** The instructions

    One definition per [INST] body. [ra], [rb], [rc] are the operand indices
    [inst.args[0..2]]; the pointers [a], [b], [c] of the macro become reads
    and writes of the register file at these indices. *)

Definition inst_JumpIfNEq (ra rb : nat) (m : Machine) : option Machine :=
  a ← get_reg (core m) ra;
  b ← get_reg (core m) rb;
  if negb (a =? b) then
    t ← jump_table (state m) !! GetProgramCounter (core m);
    Some (set_core m (JumpToIndex (core m) t))
  else Some m.

Definition inst_JumpIfLess (ra rb : nat) (m : Machine) : option Machine :=
  a ← get_reg (core m) ra;
  b ← get_reg (core m) rb;
  if a <? b then
    t ← jump_table (state m) !! GetProgramCounter (core m);
    Some (set_core m (JumpToIndex (core m) t))
  else Some m.

Definition inst_Increment := upd_reg (fun a => wrap32 (a + 1)).
Definition inst_Decrement := upd_reg (fun a => wrap32 (a - 1)).
Definition inst_ShiftLeft := upd_reg (fun a => wrap32 (Z.shiftl a 1)).
Definition inst_ShiftRight := upd_reg (fun a => wrap32 (Z.shiftr a 1)).
Definition inst_Add := upd_reg2 (fun b c => wrap32 (b + c)).
Definition inst_Subtract := upd_reg2 (fun b c => wrap32 (b - c)).
Definition inst_Nand := upd_reg2 (fun b c => wrap32 (Z.lnot (Z.land b c))).

Definition inst_Push (ra : nat) (m : Machine) : option Machine :=
  if decide (length (stack (state m)) < 16)%nat then
    a ← get_reg (core m) ra;
    Some (set_state m (set_stack (state m) (stack (state m) ++ [a])))
  else Some m.

Definition inst_Pop (ra : nat) (m : Machine) : option Machine :=
  match last (stack (state m)) with
  | None =>
      c ← set_reg (core m) ra 0;
      Some (set_core m c)
  | Some v =>
      c ← set_reg (core m) ra v;
      Some (set_state (set_core m c)
              (set_stack (state m) (removelast (stack (state m)))))
  end.

Definition inst_SwapStack (m : Machine) : option Machine :=
  Some (set_state m (swap_stacks (state m))).

Definition inst_Swap (ra rb : nat) (m : Machine) : option Machine :=
  a ← get_reg (core m) ra;
  b ← get_reg (core m) rb;
  c1 ← set_reg (core m) ra b;
  c2 ← set_reg c1 rb a;
  Some (set_core m c2).

Definition inst_Reproduce (m : Machine) : option Machine :=
  let st := state m in
  let w := world m in
  if negb (in_progress_repro st =? -1) || negb (IsValid (location st))
  then Some m
  else
    o ← organisms w !! host st;
    let points := if org_is_host o then HOST_REPRO_RES (config w)
                  else SYM_HORIZ_TRANS_RES (config w) in
    if fgt (org_points o) points then
      let w1 := set_org w (host st) (AddPoints o (fneg points)) in
      Some {| core := core m;
              state := set_in_progress_repro st (Z.of_nat (length (to_reproduce w1)));
              world := push_to_reproduce w1 (host st, location st) |}
    else Some m.

(** The next input of an I/O instruction: [GetBits50()] truncated to the
    register width ([draw] is the value the generator returns), or [1]. *)
Definition next_input (w : SGPWorld) (draw : Z) : Z :=
  if RANDOM_IO_INPUT (config w) then wrap32 draw else 1.

Definition inst_PrivateIO (ra : nat) (draw : Z) (m : Machine) : option Machine :=
  let st := state m in
  let w := world m in
  a ← get_reg (core m) ra;
  let score := CheckTasks (task_set w) st a false in
  w' ← (if fneq score (flit 0) then
          o ← organisms w !! host st;
          if negb (org_is_host o) then
            let w1 := add_SymEarned w score in
            Some (set_org w1 (host st) (AddPoints o score))
          else
            let score' := fround (fmul score (flit (3 # 4))) in
            Some (set_org w (host st) (AddPoints o score'))
        else Some w);
  let next := next_input w draw in
  c ← set_reg (core m) ra next;
  Some {| core := c; state := push_input st next; world := w' |}.

(** [AddOrganismPoints] takes the state by value: only the world changes. *)
Definition AddOrganismPoints (st : CPUState) (w : SGPWorld) (output : Z) : option SGPWorld :=
  let score := CheckTasks (task_set w) st output true in
  if fneq score (flit 0) then
    o ← organisms w !! host st;
    let w1 := set_org w (host st) (AddPoints o score) in
    if negb (org_is_host o) then Some (add_SymEarned w1 score) else Some w1
  else Some w.

Definition inst_SharedIO (ra : nat) (draw : Z) (m : Machine) : option Machine :=
  let st := state m in
  a ← get_reg (core m) ra;
  w' ← AddOrganismPoints st (world m) a;
  let next := next_input (world m) draw in
  c ← set_reg (core m) ra next;
  Some {| core := c; state := push_input st next; world := w' |}.

Definition inst_Donate (m : Machine) : option Machine :=
  let st := state m in
  let w := world m in
  if DONATION_STEAL_INST (config w) then
    o ← organisms w !! host st;
    if org_is_host o then Some m
    else
      match org_host o with
      | Some hp =>
          h ← organisms w !! hp;
          let to_donate :=
            fmin (org_points o)
                 (fmul (fadd (org_points o) (org_points h)) (flit (1 # 5))) in
          let w1 := add_SymDonated w to_donate in
          let w2 := set_org w1 hp
                      (AddPoints h (fmul to_donate
                                      (fsub (flit 1) (DONATE_PENALTY (config w))))) in
          o' ← organisms w2 !! host st;
          Some (set_world m (set_org w2 (host st) (AddPoints o' (fneg to_donate))))
      | None => Some m
      end
  else Some m.

Definition inst_Steal (m : Machine) : option Machine :=
  let st := state m in
  let w := world m in
  if DONATION_STEAL_INST (config w) then
    o ← organisms w !! host st;
    if org_is_host o then Some m
    else
      match org_host o with
      | Some hp =>
          h ← organisms w !! hp;
          let to_steal :=
            fmin (org_points h)
                 (fmul (fadd (org_points o) (org_points h)) (flit (1 # 5))) in
          let w1 := add_SymStolen w to_steal in
          let w2 := set_org w1 hp (AddPoints h (fneg to_steal)) in
          o' ← organisms w2 !! host st;
          Some (set_world m
                  (set_org w2 (host st)
                     (AddPoints o' (fmul to_steal
                                      (fsub (flit 1) (STEAL_PENALTY (config w)))))))
      | None => Some m
      end
  else Some m.

(** The common body of the two reuptake instructions; [env] is the internal
    environment read and [set_env] writes it back. *)
Definition reuptake (env : CPUState -> list Z)
    (set_env : CPUState -> list Z -> CPUState)
    (ra : nat) (m : Machine) : option Machine :=
  let st := state m in
  a ← get_reg (core m) ra;
  w1 ← AddOrganismPoints st (world m) a;
  match last (env st) with
  | Some next =>
      o ← organisms w1 !! host st;
      let w2 := if org_is_host o then print_host w1 next else w1 in
      c ← set_reg (core m) ra next;
      Some {| core := c;
              state := push_input (set_env st (removelast (env st))) next;
              world := w2 |}
  | None =>
      c ← set_reg (core m) ra 0;
      Some {| core := c; state := st; world := w1 |}
  end.

Definition inst_ReuptakePublic :=
  reuptake internalEnvironment set_internalEnvironment.

Definition inst_ReuptakePrivate :=
  reuptake internalEnvironmentPrivate set_internalEnvironmentPrivate.

Definition inst_InternalPrivate (m : Machine) : option Machine :=
  Some (set_state m (set_internalPrivate (state m) true)).

Definition inst_InternalShared (m : Machine) : option Machine :=
  Some (set_state m (set_internalPrivate (state m) false)).

(** Dispatch on the opcode, as the instruction library does. *)
Definition run (i : Instruction) (draw : Z) (m : Machine) : option Machine :=
  match op_code i with
  | Nop | GlobalAnchor => Some m
  | JumpIfNEq => inst_JumpIfNEq (arg0 i) (arg1 i) m
  | JumpIfLess => inst_JumpIfLess (arg0 i) (arg1 i) m
  | Increment => inst_Increment (arg0 i) m
  | Decrement => inst_Decrement (arg0 i) m
  | ShiftLeft => inst_ShiftLeft (arg0 i) m
  | ShiftRight => inst_ShiftRight (arg0 i) m
  | Add => inst_Add (arg0 i) (arg1 i) (arg2 i) m
  | Subtract => inst_Subtract (arg0 i) (arg1 i) (arg2 i) m
  | Nand => inst_Nand (arg0 i) (arg1 i) (arg2 i) m
  | Push => inst_Push (arg0 i) m
  | Pop => inst_Pop (arg0 i) m
  | SwapStack => inst_SwapStack m
  | Swap => inst_Swap (arg0 i) (arg1 i) m
  | Reproduce => inst_Reproduce m
  | PrivateIO => inst_PrivateIO (arg0 i) draw m
  | SharedIO => inst_SharedIO (arg0 i) draw m
  | Donate => inst_Donate m
  | Steal => inst_Steal m
  | ReuptakePublic => inst_ReuptakePublic (arg0 i) m
  | ReuptakePrivate => inst_ReuptakePrivate (arg0 i) m
  | InternalPrivate => inst_InternalPrivate m
  | InternalShared => inst_InternalShared m
  end.

End Instructions.

(** ** The [CPU] class *)

(** [v[i] = x] on a vector; writing out of range is undefined behaviour. *)
Definition vec_set {A} (v : list A) (i : nat) (x : A) : option (list A) :=
  if decide (i < length v)%nat then Some (<[i := x]> v) else None.

Definition is_jump (i : Instruction) : bool :=
  bool_decide (op_code i = JumpIfNEq) || bool_decide (op_code i = JumpIfLess).

(** The resolved target of the jump instruction at position [idx]. *)
Definition jump_target (table : JumpTable) (i : Instruction) (idx : nat) : nat :=
  match MatchRegulated table (tag i) with
  | u :: _ => GetVal table u
  | [] => (idx + 1)%nat
  end.

(** The loop of [InitializeState] over the program, from position [idx]. *)
Fixpoint fill_jump_table (table : JumpTable) (prog : Program) (idx : nat)
    (jt : list nat) : option (list nat) :=
  match prog with
  | [] => Some jt
  | i :: rest =>
      if is_jump i then
        jt' ← vec_set jt idx (jump_target table i idx);
        fill_jump_table table rest (S idx) jt'
      else fill_jump_table table rest (S idx) jt
  end.

Definition jump_table_capacity : nat := 100.

Section CPU.

Context {F : FloatOps}.

(** What the class takes from the sgpl library and from [GenomeLibrary.h]:
    the reserved start tag, the anchor table [InitializeAnchors] builds from
    a program, the core [DoLaunchCore] launches, the point-mutation operator
    and the ancestor program. *)
Variable START_TAG : Tag.
Variable InitializeAnchors : Program -> JumpTable.
Variable launch_core : Tag -> JumpTable -> Core.
Variable ApplyPointMutations : num -> Program -> Program.
Variable CreateStartProgram : Config -> Program.

Record CPU := {
  cpu : Cpu;
  program : Program;
  cpu_state : CPUState
}.

(** [cpu.DoLaunchCore(tag)]: a core is launched at the anchor matching the
    tag and becomes the active core. *)
Definition DoLaunchCore (t : Tag) (c : Cpu) : Cpu :=
  {| active_core := Some (launch_core t (global_jump_table c));
     global_jump_table := global_jump_table c |}.

(** [cpu.Reset()]: no core stays active. *)
Definition Cpu_Reset (c : Cpu) : Cpu :=
  {| active_core := None; global_jump_table := global_jump_table c |}.

(** A default-constructed [sgpl::Cpu]: no active core, no anchors. *)
Definition Cpu_new : Cpu :=
  {| active_core := None;
     global_jump_table := {| MatchRegulated := fun _ => []; GetVal := fun _ => 0%nat |} |}.

(** Modelled from the spec: the constructor [CPUState(organism, world)] of
    [CPUState.h], a state with empty stacks, buffers and tables and no
    pending reproduction. *)
Definition CPUState_new (organism : OrgPtr) : CPUState :=
  {| stack := []; stack2 := []; input_buf := []; jump_table := [];
     in_progress_repro := -1;
     location := {| pos_index := invalid_id; pos_pop_id := 0 |};
     host := organism;
     internalEnvironment := []; internalEnvironmentPrivate := [];
     internalPrivate := false;
     self_completed := []; shared_completed := [] |}.

Definition InitializeState (w : SGPWorld) (c : CPU) : option CPU :=
  let cpu1 := {| active_core := active_core (cpu c);
                 global_jump_table := InitializeAnchors (program c) |} in
  let cpu2 := if HasActiveCore cpu1 then cpu1 else DoLaunchCore START_TAG cpu1 in
  k ← active_core cpu2;
  let table := global_jump_table cpu2 in
  jt ← fill_jump_table table (program c) 0
         (resize jump_table_capacity 0%nat (jump_table (cpu_state c)));
  let n := NumTasks (task_set w) in
  Some {| cpu := cpu2; program := program c;
          cpu_state :=
            set_completed (set_jump_table (cpu_state c) jt)
              (resize n 0%nat (self_completed (cpu_state c)))
              (resize n 0%nat (shared_completed (cpu_state c))) |}.

(** [CPU(organism, world)] *)
Definition CPU_ancestor (organism : OrgPtr) (w : SGPWorld) : option CPU :=
  InitializeState w {| cpu := Cpu_new;
                       program := CreateStartProgram (config w);
                       cpu_state := CPUState_new organism |}.

(** [CPU(organism, world, program)] *)
Definition CPU_copy (organism : OrgPtr) (w : SGPWorld) (p : Program) : option CPU :=
  InitializeState w {| cpu := Cpu_new; program := p;
                       cpu_state := CPUState_new organism |}.

Definition Reset (w : SGPWorld) (c : CPU) : option CPU :=
  InitializeState w {| cpu := Cpu_Reset (cpu c); program := program c;
                       cpu_state := CPUState_new (host (cpu_state c)) |}.

Definition Mutate (w : SGPWorld) (c : CPU) : option CPU :=
  InitializeState w
    {| cpu := cpu c;
       program := ApplyPointMutations (fmul (MUTATION_SIZE (config w)) (flit 15))
                    (program c);
       cpu_state := cpu_state c |}.

End CPU.

(** ** Concrete machines

    Small worlds over exact rationals, used to run the definitions. Address
    [0] holds a host and address [1] a symbiont living in it. *)

Definition demo_config : Config (F := QOps) :=
  {| HOST_REPRO_RES := 60; SYM_HORIZ_TRANS_RES := 20;
     RANDOM_IO_INPUT := false; DONATION_STEAL_INST := true;
     DONATE_PENALTY := 1 # 10; STEAL_PENALTY := 1 # 10;
     MUTATION_SIZE := 1 # 500 |}%Q.

(** A scorer that pays [10] for any output on either channel. *)
Definition demo_tasks : TaskSet (F := QOps) :=
  {| NumTasks := 9; CheckTasks := fun _ _ _ => 10%Q |}.

Definition demo_host : Organism (F := QOps) :=
  {| org_is_host := true; org_points := 100%Q; org_host := None |}.

Definition demo_sym : Organism (F := QOps) :=
  {| org_is_host := false; org_points := 50%Q; org_host := Some 0%nat |}.

Definition demo_world : SGPWorld (F := QOps) :=
  {| organisms := <[1%nat := demo_sym]> (<[0%nat := demo_host]> ∅);
     config := demo_config; task_set := demo_tasks;
     to_reproduce := [];
     SymEarnedData := []; SymDonatedData := []; SymStolenData := [];
     console := [] |}.

Definition demo_state (self : nat) : CPUState :=
  {| stack := []; stack2 := []; input_buf := [];
     jump_table := replicate 100 7%nat;
     in_progress_repro := -1;
     location := {| pos_index := 3; pos_pop_id := 0 |};
     host := self;
     internalEnvironment := [11; 12]; internalEnvironmentPrivate := [];
     internalPrivate := false;
     self_completed := []; shared_completed := [] |}.

Definition demo_core (r0 r1 r2 : Z) (pc : nat) : Core :=
  {| registers := [r0; r1; r2]; program_counter := pc |}.

Definition demo_machine (self : nat) (r0 r1 r2 : Z) (pc : nat) : Machine (F := QOps) :=
  {| core := demo_core r0 r1 r2 pc; state := demo_state self; world := demo_world |}.

(** The same two organisms in binary64, with balances [0.2] (host) and [0.1]
    (symbiont) and penalty fractions [pen]. *)
Definition b64_config (pen : Q) : @Config B64Ops :=
  {| HOST_REPRO_RES := b64 (b64_lit 60); SYM_HORIZ_TRANS_RES := b64 (b64_lit 20);
     RANDOM_IO_INPUT := false; DONATION_STEAL_INST := true;
     DONATE_PENALTY := b64 (b64_lit pen); STEAL_PENALTY := b64 (b64_lit pen);
     MUTATION_SIZE := b64 (b64_lit (1 # 500)) |}.

Definition b64_tasks : @TaskSet B64Ops :=
  {| NumTasks := 9; CheckTasks := fun _ _ _ => b64 (b64_lit 10) |}.

Definition b64_host : @Organism B64Ops :=
  {| org_is_host := true; org_points := b64 (b64_lit (1 # 5)); org_host := None |}.

Definition b64_sym : @Organism B64Ops :=
  {| org_is_host := false; org_points := b64 (b64_lit (1 # 10));
     org_host := Some 0%nat |}.

Definition b64_world (pen : Q) : @SGPWorld B64Ops :=
  {| organisms := <[1%nat := b64_sym]> (<[0%nat := b64_host]> ∅);
     config := b64_config pen; task_set := b64_tasks;
     to_reproduce := [];
     SymEarnedData := []; SymDonatedData := []; SymStolenData := [];
     console := [] |}.

(** The symbiont's machine. *)
Definition b64_machine (pen : Q) : @Machine B64Ops :=
  {| core := demo_core 0 0 0 0; state := demo_state 1; world := b64_world pen |}.

(** ** Running stack instructions in sequence

    [push_value] executes Push with the value [v] in its operand register;
    [pop_values n] executes [n] Pops and collects what each leaves in the
    operand register. *)

Definition push_value `{F : FloatOps} (ra : nat) (v : Z) (m : Machine) : option Machine :=
  c ← set_reg (core m) ra v;
  inst_Push ra (set_core m c).

Fixpoint push_values `{F : FloatOps} (ra : nat) (vs : list Z) (m : Machine) : option Machine :=
  match vs with
  | [] => Some m
  | v :: vs' => m' ← push_value ra v m; push_values ra vs' m'
  end.

Fixpoint pop_values `{F : FloatOps} (n : nat) (ra : nat) (m : Machine)
    : option (list Z * Machine) :=
  match n with
  | O => Some ([], m)
  | S n' =>
      m' ← inst_Pop ra m;
      a ← get_reg (core m') ra;
      r ← pop_values n' ra m';
      Some (a :: r.1, r.2)
  end.

(** ** Concrete programs and anchor tables *)

Definition nop_ins : Instruction :=
  {| op_code := Nop; arg0 := 0; arg1 := 0; arg2 := 0; tag := 0 |}.

Definition jump_ins (op : OpCode) (t : Tag) : Instruction :=
  {| op_code := op; arg0 := 0; arg1 := 1; arg2 := 0; tag := t |}.

(** An anchor table in which only tag [42] matches: anchors [3] and [1], in
    that order; anchor [u] sits at program position [10 * u]. *)
Definition demo_anchors : JumpTable :=
  {| MatchRegulated := fun t => if t =? 42 then [3; 1]%nat else [];
     GetVal := fun u => (10 * u)%nat |}.

(** An anchor table with several matching tags: [42] and [43] both resolve
    to anchor [3] (with different runners-up), [44] to anchor [30], [45] to
    anchor [29]; anchor [u] sits at program position [10 * u]. *)
Definition wide_anchors : JumpTable :=
  {| MatchRegulated := fun t =>
       if t =? 42 then [3; 1]%nat
       else if t =? 43 then [3]%nat
       else if t =? 44 then [30; 3]%nat
       else if t =? 45 then [29]%nat
       else [];
     GetVal := fun u => (10 * u)%nat |}.

(** A three-instruction program: a matched jump, a filler, an unmatched jump. *)
Definition short_program : Program :=
  [jump_ins JumpIfNEq 42; nop_ins; jump_ins JumpIfLess 5].

(** A program of 101 instructions whose last one is an unmatched jump. *)
Definition long_program : Program :=
  replicate 100 nop_ins ++ [jump_ins JumpIfNEq 5].

Definition demo_launch (t : Tag) (table : JumpTable) : Core := demo_core 0 0 0 0.

(** A mutation operator that drops the first instruction of the program. *)
Definition demo_mutation (rate : @num QOps) (p : Program) : Program := tail p.

(** ** Conditions of the reproduction request *)

(** The role-specific reproduction cost of an organism. *)
Definition repro_cost `{F : FloatOps} (w : SGPWorld) (o : Organism) : num :=
  if org_is_host o then HOST_REPRO_RES (config w)
  else SYM_HORIZ_TRANS_RES (config w).

(** The three conditions under which Reproduce takes effect. *)
Definition may_reproduce `{F : FloatOps} (m : Machine) (o : Organism) : bool :=
  (in_progress_repro (state m) =? -1) && IsValid (location (state m))
  && fgt (org_points o) (repro_cost (world m) o).

(** ** A scorer that tells the two channels apart

    [flag_tasks] pays [10] when the scorer is called with the shared flag and
    nothing otherwise; [flag_machine] is the host of [demo_machine] in a world
    with this task set. *)

Definition flag_tasks : TaskSet (F := QOps) :=
  {| NumTasks := 9;
     CheckTasks := fun _ _ shared => if shared then 10%Q else 0%Q |}.

Definition flag_world : SGPWorld (F := QOps) :=
  {| organisms := organisms demo_world; config := demo_config;
     task_set := flag_tasks; to_reproduce := [];
     SymEarnedData := []; SymDonatedData := []; SymStolenData := [];
     console := [] |}.

Definition flag_machine : Machine (F := QOps) :=
  {| core := demo_core 5 0 0 0; state := demo_state 0; world := flag_world |}.

(** The scoring step as the specification words it for the reuptake
    instructions, "the unshared path": the organism-level credit of
    [AddOrganismPoints] with the scorer called with the shared flag off. *)
Definition AddOrganismPoints_unshared `{F : FloatOps}
    (st : CPUState) (w : SGPWorld) (output : Z) : option SGPWorld :=
  let score := CheckTasks (task_set w) st output false in
  if fneq score (flit 0) then
    o ← organisms w !! host st;
    let w1 := set_org w (host st) (AddPoints o score) in
    if negb (org_is_host o) then Some (add_SymEarned w1 score) else Some w1
  else Some w.

(** ** Executing a sequence of instructions

    The engine presents a core to every instruction it dispatches, and
    between two instructions it may advance the program counter or change
    cores. [run_trace] executes the instructions of a trace in order, each
    with its random draw and on the core the trace gives for it; the state
    and the world are threaded through. *)

Fixpoint run_trace `{F : FloatOps} (tr : list (Core * Instruction * Z))
    (m : Machine) : option Machine :=
  match tr with
  | [] => Some m
  | (c, i, d) :: tr' =>
      m' ← run i d (set_core m c);
      run_trace tr' m'
  end.

(** ** Well-formedness conditions *)

(** Both stacks within their capacity. *)
Definition stacks_bounded (s : CPUState) : Prop :=
  (length (stack s) <= 16)%nat /\ (length (stack2 s) <= 16)%nat.

(** Every 32-bit cell of the machine holds a 32-bit value. *)
Definition state_u32 (s : CPUState) : Prop :=
  Forall u32 (stack s) /\ Forall u32 (stack2 s) /\ Forall u32 (input_buf s) /\
  Forall u32 (internalEnvironment s) /\ Forall u32 (internalEnvironmentPrivate s).

Definition machine_u32 `{F : FloatOps} (m : Machine) : Prop :=
  Forall u32 (registers (core m)) /\ state_u32 (state m).

#[export] Instance u32_dec (z : Z) : Decision (u32 z).
Proof. unfold u32. apply _. Defined.

#[export] Instance stacks_bounded_dec (s : CPUState) : Decision (stacks_bounded s).
Proof. unfold stacks_bounded. apply _. Defined.

#[export] Instance state_u32_dec (s : CPUState) : Decision (state_u32 s).
Proof. unfold state_u32. apply _. Defined.

(** ** Proof automation: case analysis over the instruction set *)

Ltac inst_unfold :=
  unfold run, inst_JumpIfNEq, inst_JumpIfLess, inst_Increment, inst_Decrement,
    inst_ShiftLeft, inst_ShiftRight, inst_Add, inst_Subtract, inst_Nand,
    inst_Push, inst_Pop, inst_SwapStack, inst_Swap, inst_Reproduce,
    inst_PrivateIO, inst_SharedIO, inst_Donate, inst_Steal,
    inst_ReuptakePublic, inst_ReuptakePrivate, inst_InternalPrivate,
    inst_InternalShared, reuptake, AddOrganismPoints, upd_reg, upd_reg2,
    set_reg, get_reg in *.

Ltac inst_cases :=
  repeat (simplify_option_eq || case_match).

(** Split on whether the key written by an insertion is the key looked up. *)
Ltac split_insert_hyps :=
  repeat match goal with
  | Hl : <[?q := _]> _ !! ?r = Some _ |- _ =>
      destruct (decide (q = r)) as [Hqr|Hqr];
      [rewrite Hqr, lookup_insert_eq in Hl
      | rewrite lookup_insert_ne in Hl by done];
      revert Hqr
  end.

(** ** Running one instruction repeatedly

    [collect step n ra] executes the instruction [step] [n] times and collects
    what each execution leaves in register [ra]. *)

Fixpoint collect `{F : FloatOps} (step : Machine -> option Machine)
    (n : nat) (ra : nat) (m : Machine) : option (list Z * Machine) :=
  match n with
  | O => Some ([], m)
  | S n' =>
      m' ← step m;
      a ← get_reg (core m') ra;
      r ← collect step n' ra m';
      Some (a :: r.1, r.2)
  end.

(** ** Printing the program ([PrintOp], [PrintCode])

    The output stream is the string of the characters written to it.
    [size_t] is taken to be 64 bits wide. *)

(** The name of an instruction: the [name()] the [INST] macro generates, and
    the library names of the no-operation and of the global anchor. *)
Definition GetOpName (op : OpCode) : string :=
  match op with
  | Nop => "Nop-0" | GlobalAnchor => "Global Anchor"
  | JumpIfNEq => "JumpIfNEq" | JumpIfLess => "JumpIfLess"
  | Increment => "Increment" | Decrement => "Decrement"
  | ShiftLeft => "ShiftLeft" | ShiftRight => "ShiftRight"
  | Add => "Add" | Subtract => "Subtract" | Nand => "Nand"
  | Push => "Push" | Pop => "Pop" | SwapStack => "SwapStack" | Swap => "Swap"
  | Reproduce => "Reproduce" | PrivateIO => "PrivateIO" | SharedIO => "SharedIO"
  | Donate => "Donate" | Steal => "Steal"
  | ReuptakePublic => "ReuptakePublic" | ReuptakePrivate => "ReuptakePrivate"
  | InternalPrivate => "InternalPrivate" | InternalShared => "InternalShared"
  end.

(** The table of arities [PrintCode] builds. *)
Definition PrintCode_arities : list (string * nat) :=
  [("Nop-0", 0); ("ShiftLeft", 1); ("ShiftRight", 1); ("Increment", 1);
   ("Decrement", 1); ("Push", 1); ("Pop", 1); ("SwapStack", 0);
   ("Swap", 2); ("Add", 3); ("Subtract", 3); ("Nand", 3);
   ("Reproduce", 0); ("PrivateIO", 1); ("SharedIO", 1); ("Donate", 0);
   ("ReuptakePublic", 1); ("ReuptakePrivate", 1); ("InternalPrivate", 1);
   ("Steal", 0)]%nat.

(** [arities.count(name)] together with [arities.at(name)]. *)
Fixpoint arity_of (arities : list (string * nat)) (name : string) : option nat :=
  match arities with
  | [] => None
  | (k, a) :: rest => if String.eqb k name then Some a else arity_of rest name
  end.

(** [emp::to_lower]: upper-case ASCII letters become lower-case. *)
Definition to_lower_char (c : ascii) : ascii :=
  let n := nat_of_ascii c in
  if ((65 <=? n) && (n <=? 90))%nat then ascii_of_nat (n + 32) else c.

Fixpoint to_lower (s : string) : string :=
  match s with
  | EmptyString => EmptyString
  | String c rest => String (to_lower_char c) (to_lower rest)
  end.

(** [n] spaces: what a loop of [n] rounds of [out << ' '] writes. *)
Definition spaces (n : N) : string := N.iter n (String " ") EmptyString.

(** The bound [12 - name.length()] of the padding loop, in [size_t]. *)
Definition pad_count (name : string) : N :=
  Z.to_N ((12 - Z.of_nat (String.length name)) mod 2 ^ 64).

(** The operands [r<args[0]>, r<args[1]>, ...] of an instruction of the
    given arity; an instruction has three operand slots. *)
Fixpoint operands (args : list nat) (arity : nat) (first : bool) : option string :=
  match arity with
  | O => Some EmptyString
  | S arity' =>
      match args with
      | [] => None
      | a :: args' =>
          rest ← operands args' arity' false;
          Some ((if first then "" else ", ") +:+ "r" +:+ pretty a +:+ rest)
      end
  end.

(** The two-letter code of anchor [u]: the characters ['A' + u / 26] and
    ['A' + u % 26]. *)
Definition tag_code (u : nat) : string :=
  String (ascii_of_nat (65 + u / 26)) (String (ascii_of_nat (65 + u mod 26)) EmptyString).

Definition tag_name (table : JumpTable) (t : Tag) : string :=
  match MatchRegulated table t with
  | u :: _ => tag_code u
  | [] => "<nowhere>"
  end.

Definition PrintOp (ins : Instruction) (arities : list (string * nat))
    (table : JumpTable) : option string :=
  let name := GetOpName (op_code ins) in
  body ← match arity_of arities name with
         | Some arity =>
             ops ← operands [arg0 ins; arg1 ins; arg2 ins] arity true;
             Some ("    " +:+ to_lower name +:+ spaces (pad_count name) +:+ ops)
         | None =>
             let tn := tag_name table (tag ins) in
             if String.eqb name "JumpIfNEq" || String.eqb name "JumpIfLess" then
               Some ("    " +:+ to_lower name +:+ spaces (pad_count name) +:+
                     "r" +:+ pretty (arg0 ins) +:+ ", r" +:+ pretty (arg1 ins) +:+
                     ", " +:+ tn)
             else if String.eqb name "Global Anchor" then Some (tn +:+ ":")
             else Some ("<unknown " +:+ name +:+ ">")
         end;
  Some (body +:+ String "010" EmptyString).

(** [PrintCode]: one [PrintOp] per instruction, each reading the anchor table
    of the active core. *)
Fixpoint PrintCode_from (c : Cpu) (prog : Program) : option string :=
  match prog with
  | [] => Some EmptyString
  | ins :: rest =>
      k ← active_core c;
      line ← PrintOp ins PrintCode_arities (global_jump_table c);
      more ← PrintCode_from c rest;
      Some (line +:+ more)
  end.

Definition PrintCode (c : CPU) : option string :=
  PrintCode_from (cpu c) (program c).

(** The instructions whose name is longer than the 12-character column. *)
Definition long_name (op : OpCode) : bool :=
  bool_decide (op = ReuptakePublic) || bool_decide (op = ReuptakePrivate)
  || bool_decide (op = InternalPrivate).

(** The instructions [PrintOp] prints with a mnemonic and operands. *)
Definition has_mnemonic (op : OpCode) : bool :=
  negb (bool_decide (op = GlobalAnchor)) && negb (bool_decide (op = InternalShared)).

(** ** A concrete trace

    Five instructions executed by the symbiont of [demo_world]: a Push, a
    Reproduce, a SharedIO, a second Reproduce and a Donate. *)

Definition mk_ins (op : OpCode) (a b c : nat) : Instruction :=
  {| op_code := op; arg0 := a; arg1 := b; arg2 := c; tag := 0 |}.

Definition demo_trace : list (Core * Instruction * Z) :=
  [ (demo_core 5 6 0 0, mk_ins Push 0 0 0, 0);
    (demo_core 5 6 0 1, mk_ins Reproduce 0 0 0, 0);
    (demo_core 5 6 0 2, mk_ins SharedIO 0 0 0, 7);
    (demo_core 1 6 0 3, mk_ins Reproduce 0 0 0, 0);
    (demo_core 1 6 0 4, mk_ins Donate 0 0 0, 0) ].

Definition demo_cpu : CPU :=
  {| cpu := Cpu_new; program := short_program; cpu_state := demo_state 0 |}.

(** * Properties *)

(** ** Register file *)

Section RegisterLemmas.

Context {F : FloatOps}.

Lemma set_reg_Some (c : Core) (i : nat) (x v : Z) :
  registers c !! i = Some x -> set_reg c i v = Some (write_reg c i v).
Proof.
  intros H. unfold set_reg.
  apply lookup_lt_Some in H. by rewrite decide_True.
Qed.

Lemma upd_reg_Some (f : Z -> Z) (ra : nat) (m : Machine) (a : Z) :
  registers (core m) !! ra = Some a ->
  upd_reg f ra m = Some (set_core m (write_reg (core m) ra (f a))).
Proof.
  intros H. unfold upd_reg, get_reg. rewrite H. simpl.
  by rewrite (set_reg_Some _ _ a).
Qed.

Lemma upd_reg2_Some (f : Z -> Z -> Z) (ra rb rc : nat) (m : Machine) (a b c : Z) :
  registers (core m) !! ra = Some a ->
  registers (core m) !! rb = Some b ->
  registers (core m) !! rc = Some c ->
  upd_reg2 f ra rb rc m = Some (set_core m (write_reg (core m) ra (f b c))).
Proof.
  intros Ha Hb Hc. unfold upd_reg2, get_reg. rewrite Hb, Hc. simpl.
  by rewrite (set_reg_Some _ _ a).
Qed.

(** What a register update leaves: the new value in the destination, every
    other register, the program counter, the state and the world as they
    were. *)
Lemma write_reg_effect (m : Machine) (ra : nat) (a v : Z) :
  registers (core m) !! ra = Some a ->
  let m' := set_core m (write_reg (core m) ra v) in
  registers (core m') !! ra = Some v /\
  (forall r, r <> ra -> registers (core m') !! r = registers (core m) !! r) /\
  program_counter (core m') = program_counter (core m) /\
  state m' = state m /\ world m' = world m.
Proof.
  intros Ha m'. simpl. apply lookup_lt_Some in Ha.
  split; [by apply list_lookup_insert_eq |].
  split; [| done]. intros r Hr. by apply list_lookup_insert_ne.
Qed.

End RegisterLemmas.

(** ** 32-bit arithmetic *)

Lemma wrap32_range (z : Z) : u32 (wrap32 z).
Proof. unfold u32, wrap32. apply Z.mod_pos_bound. lia. Qed.

Lemma wrap32_small (z : Z) : u32 z -> wrap32 z = z.
Proof. unfold u32, wrap32. intros H. by apply Z.mod_small. Qed.

Lemma wrap32_shiftl1 (a : Z) : wrap32 (Z.shiftl a 1) = (2 * a) mod 2 ^ 32.
Proof. unfold wrap32. rewrite Z.shiftl_mul_pow2 by lia. f_equal. lia. Qed.

Lemma wrap32_shiftr1 (a : Z) : u32 a -> wrap32 (Z.shiftr a 1) = a / 2.
Proof.
  intros [H0 H1]. rewrite Z.shiftr_div_pow2 by lia.
  change (2 ^ 1) with 2. apply wrap32_small. unfold u32.
  split.
  - apply Z.div_pos; lia.
  - apply Z.div_lt_upper_bound; lia.
Qed.

Lemma wrap32_nand_bits (b c i : Z) :
  0 <= i < 32 ->
  Z.testbit (wrap32 (Z.lnot (Z.land b c))) i
  = negb (Z.testbit b i && Z.testbit c i).
Proof.
  intros Hi. unfold wrap32.
  rewrite Z.mod_pow2_bits_low by lia.
  rewrite Z.lnot_spec by lia.
  by rewrite Z.land_spec.
Qed.

Lemma land_u32 (b c : Z) : u32 b -> u32 (Z.land b c).
Proof.
  intros [H0 H1]. unfold u32.
  assert (0 <= Z.land b c) by (apply Z.land_nonneg; by left).
  assert (0 <= Z.land b (Z.lnot c)) by (apply Z.land_nonneg; by left).
  pose proof (Z.sub_land_same_l b c). lia.
Qed.

Lemma wrap32_nand (b c : Z) :
  u32 b -> wrap32 (Z.lnot (Z.land b c)) = 2 ^ 32 - 1 - Z.land b c.
Proof.
  intros Hb. destruct (land_u32 b c Hb) as [H0 H1].
  rewrite Z.lnot_eq_pred_opp. unfold wrap32. symmetry.
  apply (Z.mod_unique _ _ (-1)); lia.
Qed.

(** C9. Register arithmetic is unsigned 32-bit arithmetic with wrap-around.
    On registers holding the 32-bit values [a], [b], [c], each instruction
    completes and leaves its result in the destination register [ra], every
    other register, the program counter, the state and the world being as
    they were: Increment leaves [(a + 1) mod 2^32] and Decrement
    [(a - 1) mod 2^32], Add leaves [(b + c) mod 2^32] and Subtract
    [(b - c) mod 2^32], Nand leaves [2^32 - 1 - (b AND c)], the 32-bit value
    whose every bit is the complement of the conjunction of the bits of [b]
    and [c], ShiftLeft leaves [2 * a mod 2^32] and ShiftRight [a / 2] (one
    bit position each way). *)
Theorem C9_register_arithmetic `{F : FloatOps} (m : Machine)
    (ra rb rc : nat) (a b c : Z) :
  registers (core m) !! ra = Some a ->
  registers (core m) !! rb = Some b ->
  registers (core m) !! rc = Some c ->
  u32 a -> u32 b -> u32 c ->
  let stores (result : option Machine) (v : Z) :=
    exists m', result = Some m' /\
      registers (core m') !! ra = Some v /\
      (forall r, r <> ra -> registers (core m') !! r = registers (core m) !! r) /\
      program_counter (core m') = program_counter (core m) /\
      state m' = state m /\ world m' = world m in
  let nand := 2 ^ 32 - 1 - Z.land b c in
  stores (inst_Increment ra m) ((a + 1) mod 2 ^ 32) /\
  stores (inst_Decrement ra m) ((a - 1) mod 2 ^ 32) /\
  stores (inst_Add ra rb rc m) ((b + c) mod 2 ^ 32) /\
  stores (inst_Subtract ra rb rc m) ((b - c) mod 2 ^ 32) /\
  (stores (inst_Nand ra rb rc m) nand /\ u32 nand /\
   forall i, 0 <= i < 32 ->
     Z.testbit nand i = negb (Z.testbit b i && Z.testbit c i)) /\
  stores (inst_ShiftLeft ra m) ((2 * a) mod 2 ^ 32) /\
  stores (inst_ShiftRight ra m) (a / 2).
Proof.
  intros Ha Hb Hc Ua Ub Uc stores nand.
  assert (Hst : forall v, stores (Some (set_core m (write_reg (core m) ra v))) v).
  { intros v. eexists. split; [reflexivity |]. by apply (write_reg_effect m ra a v). }
  unfold inst_Increment, inst_Decrement, inst_Add, inst_Subtract, inst_Nand,
    inst_ShiftLeft, inst_ShiftRight.
  rewrite !(upd_reg_Some _ _ _ a Ha).
  rewrite !(upd_reg2_Some _ _ _ _ _ a b c Ha Hb Hc).
  rewrite wrap32_shiftl1, (wrap32_shiftr1 a Ua), (wrap32_nand b c Ub).
  fold nand.
  repeat split; try apply Hst.
  - unfold nand. destruct (land_u32 b c Ub). lia.
  - unfold nand. destruct (land_u32 b c Ub). lia.
  - intros i Hi. unfold nand. rewrite <- (wrap32_nand b c Ub).
    by apply wrap32_nand_bits.
Qed.

Lemma C9_register_arithmetic_witness :
  let m := demo_machine 0 (2 ^ 32 - 1) 5 12 7 in
  (exists m', inst_Increment 0 m = Some m' /\
     registers (core m') !! 0%nat = Some 0 /\
     registers (core m') !! 1%nat = Some 5 /\
     registers (core m') !! 2%nat = Some 12 /\
     program_counter (core m') = 7%nat) /\
  (exists m', inst_Decrement 1 m = Some m' /\
     registers (core m') !! 1%nat = Some 4) /\
  (exists m', inst_Add 0 1 2 m = Some m' /\
     registers (core m') !! 0%nat = Some 17) /\
  (exists m', inst_Subtract 0 1 2 m = Some m' /\
     registers (core m') !! 0%nat = Some (2 ^ 32 - 7)) /\
  (exists m', inst_Nand 0 1 2 m = Some m' /\
     registers (core m') !! 0%nat = Some (2 ^ 32 - 5)) /\
  (exists m', inst_ShiftLeft 0 m = Some m' /\
     registers (core m') !! 0%nat = Some (2 ^ 32 - 2)) /\
  (exists m', inst_ShiftRight 1 m = Some m' /\
     registers (core m') !! 1%nat = Some 2).
Proof.
  intros m.
  destruct (C9_register_arithmetic m 0 1 2 (2 ^ 32 - 1) 5 12)
    as (Hinc & _ & Hadd & Hsub & (Hnand & _) & Hshl & _);
    try reflexivity; try (unfold u32; lia).
  destruct (C9_register_arithmetic m 1 1 2 5 5 12)
    as (_ & Hdec & _ & _ & _ & _ & Hshr); try reflexivity; try (unfold u32; lia).
  destruct Hinc as (m1 & R1 & V1 & O1 & P1 & _).
  destruct Hdec as (m2 & R2 & V2 & _).
  destruct Hadd as (m3 & R3 & V3 & _).
  destruct Hsub as (m4 & R4 & V4 & _).
  destruct Hnand as (m5 & R5 & V5 & _).
  destruct Hshl as (m6 & R6 & V6 & _).
  destruct Hshr as (m7 & R7 & V7 & _).
  split.
  { exists m1. split; [exact R1 |]. split; [exact V1 |].
    split; [exact (O1 1%nat ltac:(lia)) |].
    split; [exact (O1 2%nat ltac:(lia)) | exact P1]. }
  split; [exists m2; split; [exact R2 | exact V2] |].
  split; [exists m3; split; [exact R3 | exact V3] |].
  split; [exists m4; split; [exact R4 | exact V4] |].
  split; [exists m5; split; [exact R5 | exact V5] |].
  split; [exists m6; split; [exact R6 | exact V6] |].
  exists m7; split; [exact R7 | exact V7].
Defined.

(** ** Jumps *)

(** C7. A jump instruction transfers control to the jump-table entry at the
    current program counter exactly when its condition holds on the two
    operand registers (unequal for JumpIfNEq, first below second for
    JumpIfLess); when the condition fails the machine is left as it was and
    the table is not consulted. *)
Theorem C7_jump_on_condition `{F : FloatOps} (m : Machine) (ra rb : nat) (a b : Z) :
  registers (core m) !! ra = Some a ->
  registers (core m) !! rb = Some b ->
  (a = b -> inst_JumpIfNEq ra rb m = Some m) /\
  (a >= b -> inst_JumpIfLess ra rb m = Some m) /\
  (forall t, jump_table (state m) !! program_counter (core m) = Some t ->
     (a <> b -> inst_JumpIfNEq ra rb m = Some (set_core m (JumpToIndex (core m) t))) /\
     (a < b -> inst_JumpIfLess ra rb m = Some (set_core m (JumpToIndex (core m) t)))).
Proof.
  intros Ha Hb.
  unfold inst_JumpIfNEq, inst_JumpIfLess, get_reg, GetProgramCounter.
  rewrite Ha, Hb. simpl.
  split; [| split].
  - intros ->. by rewrite Z.eqb_refl.
  - intros Hge. by rewrite (proj2 (Z.ltb_ge a b)) by lia.
  - intros t Ht. rewrite Ht. simpl. split.
    + intros Hne. by rewrite (proj2 (Z.eqb_neq a b) Hne).
    + intros Hlt. by rewrite (proj2 (Z.ltb_lt a b) Hlt).
Qed.

Lemma C7_jump_on_condition_witness :
  (let m := demo_machine 0 5 5 0 2 in
   jump_table (state m) !! 2%nat = Some 7%nat /\
   (program_counter <$> (core <$> inst_JumpIfNEq 0 1 m)) = Some 2%nat) /\
  (let m := demo_machine 0 5 6 0 2 in
   jump_table (state m) !! 2%nat = Some 7%nat /\
   (program_counter <$> (core <$> inst_JumpIfNEq 0 1 m)) = Some 7%nat /\
   (program_counter <$> (core <$> inst_JumpIfLess 0 1 m)) = Some 7%nat).
Proof.
  split.
  - intros m. split; [reflexivity |].
    pose proof (C7_jump_on_condition m 0 1 5 5 eq_refl eq_refl) as (Heq & _ & _).
    by rewrite Heq.
  - intros m. split; [reflexivity |].
    pose proof (C7_jump_on_condition m 0 1 5 6 eq_refl eq_refl) as (_ & _ & Hj).
    destruct (Hj 7%nat eq_refl) as [Hne Hlt].
    rewrite Hne by lia. rewrite Hlt by lia. by split.
Defined.

(** ** Stacks *)

Section StackLemmas.

Context {F : FloatOps}.

Lemma push_value_stack (ra : nat) (v : Z) (m : Machine) :
  (ra < length (registers (core m)))%nat ->
  exists m',
    push_value ra v m = Some m' /\
    length (registers (core m')) = length (registers (core m)) /\
    stack (state m') =
      if decide (length (stack (state m)) < 16)%nat
      then stack (state m) ++ [v] else stack (state m).
Proof.
  intros Hra. unfold push_value, set_reg, inst_Push.
  rewrite decide_True by done. simpl.
  destruct (decide (length (stack (state m)) < 16)%nat) as [Hlt|Hge].
  - unfold get_reg. simpl. rewrite list_lookup_insert_eq by done. simpl.
    eexists. split; [reflexivity |]. simpl.
    by rewrite length_insert.
  - eexists. split; [reflexivity |]. simpl.
    by rewrite length_insert.
Qed.

Lemma push_values_stack (ra : nat) (vs : list Z) : forall m : Machine,
  (ra < length (registers (core m)))%nat ->
  (length (stack (state m)) + length vs <= 16)%nat ->
  exists m',
    push_values ra vs m = Some m' /\
    length (registers (core m')) = length (registers (core m)) /\
    stack (state m') = stack (state m) ++ vs.
Proof.
  induction vs as [|v vs IH]; intros m Hra Hlen.
  - exists m. by rewrite app_nil_r.
  - simpl in Hlen. simpl.
    destruct (push_value_stack ra v m Hra) as (m1 & -> & Hr1 & Hs1).
    rewrite decide_True in Hs1 by lia. simpl.
    destruct (IH m1) as (m2 & -> & Hr2 & Hs2).
    + by rewrite Hr1.
    + rewrite Hs1, length_app. simpl. lia.
    + exists m2. split; [done |]. split; [congruence |].
      rewrite Hs2, Hs1. by rewrite <- app_assoc.
Qed.

Lemma pop_nonempty (ra : nat) (m : Machine) (s : list Z) (v : Z) :
  (ra < length (registers (core m)))%nat ->
  stack (state m) = s ++ [v] ->
  inst_Pop ra m =
    Some (set_state (set_core m (write_reg (core m) ra v)) (set_stack (state m) s)).
Proof.
  intros Hra Hs. unfold inst_Pop, set_reg.
  rewrite Hs, last_snoc, removelast_last. simpl.
  by rewrite decide_True.
Qed.

Lemma pop_empty (ra : nat) (m : Machine) :
  (ra < length (registers (core m)))%nat ->
  stack (state m) = [] ->
  inst_Pop ra m = Some (set_core m (write_reg (core m) ra 0)).
Proof.
  intros Hra Hs. unfold inst_Pop, set_reg. rewrite Hs. simpl.
  by rewrite decide_True.
Qed.

Lemma pop_values_stack (ra : nat) (vs : list Z) : forall (s : list Z) (m : Machine),
  (ra < length (registers (core m)))%nat ->
  stack (state m) = s ++ vs ->
  exists m',
    pop_values (length vs) ra m = Some (rev vs, m') /\
    length (registers (core m')) = length (registers (core m)) /\
    stack (state m') = s.
Proof.
  induction vs as [|v vs IH] using rev_ind; intros s m Hra Hs.
  - exists m. rewrite app_nil_r in Hs. by simpl.
  - rewrite app_assoc in Hs.
    rewrite length_app, Nat.add_comm. simpl.
    rewrite (pop_nonempty ra m (s ++ vs) v Hra Hs). simpl.
    unfold get_reg. simpl. rewrite list_lookup_insert_eq by done. simpl.
    destruct (IH s (set_state (set_core m (write_reg (core m) ra v))
                      (set_stack (state m) (s ++ vs)))) as (m' & -> & Hr & Hs').
    + simpl. by rewrite length_insert.
    + reflexivity.
    + simpl. exists m'. rewrite rev_unit. split; [done |].
      split; [| done]. rewrite Hr. simpl. by rewrite length_insert.
Qed.

End StackLemmas.

(** C8. From an empty primary stack, sixteen Pushes of [v1 .. v16] followed
    by sixteen Pops deliver [v16 .. v1] to the operand register and leave the
    stack empty; a seventeenth Push on the full stack changes nothing (the
    value is dropped); a Pop on an empty stack writes [0] to the register and
    leaves the stack empty. *)
Theorem C8_push_pop_round_trip `{F : FloatOps} (m : Machine) (ra : nat)
    (vs : list Z) (v17 : Z) :
  stack (state m) = [] ->
  (ra < length (registers (core m)))%nat ->
  length vs = 16%nat ->
  exists m16 m0 : Machine,
    push_values ra vs m = Some m16 /\
    stack (state m16) = vs /\
    pop_values 16 ra m16 = Some (rev vs, m0) /\
    stack (state m0) = [] /\
    inst_Push ra m16 = Some m16 /\
    (exists m17, push_value ra v17 m16 = Some m17 /\ stack (state m17) = vs) /\
    inst_Pop ra m0 = Some (set_core m0 (write_reg (core m0) ra 0)) /\
    (exists m', inst_Pop ra m0 = Some m' /\
                get_reg (core m') ra = Some 0 /\ stack (state m') = []).
Proof.
  intros Hs Hra Hlen.
  destruct (push_values_stack ra vs m Hra) as (m16 & Hpush & Hr16 & Hs16).
  { rewrite Hs, Hlen. simpl. lia. }
  rewrite Hs in Hs16. simpl in Hs16.
  assert (Hra16 : (ra < length (registers (core m16)))%nat) by lia.
  destruct (pop_values_stack ra vs [] m16 Hra16) as (m0 & Hpop & Hr0 & Hs0).
  { by rewrite Hs16. }
  rewrite Hlen in Hpop.
  assert (Hra0 : (ra < length (registers (core m0)))%nat) by lia.
  exists m16, m0. repeat split; try assumption.
  - unfold inst_Push. rewrite Hs16, Hlen. by rewrite decide_False by lia.
  - destruct (push_value_stack ra v17 m16 Hra16) as (m17 & Hp17 & _ & Hs17).
    rewrite Hs16, Hlen in Hs17. rewrite decide_False in Hs17 by lia.
    by exists m17.
  - by apply pop_empty.
  - eexists. split; [by apply pop_empty |]. split; [| done].
    unfold get_reg. simpl. by rewrite list_lookup_insert_eq.
Qed.

Lemma C8_push_pop_round_trip_witness :
  let m := demo_machine 0 0 0 0 0 in
  let vs := [1; 2; 3; 4; 5; 6; 7; 8; 9; 10; 11; 12; 13; 14; 15; 16] in
  exists m16 m0 : Machine,
    push_values 0 vs m = Some m16 /\
    stack (state m16) = vs /\
    pop_values 16 0 m16 = Some (rev vs, m0) /\
    stack (state m0) = [] /\
    inst_Push 0 m16 = Some m16.
Proof.
  intros m vs.
  destruct (C8_push_pop_round_trip m 0 vs 17 eq_refl) as
    (m16 & m0 & H1 & H2 & H3 & H4 & H5 & _).
  - simpl. lia.
  - reflexivity.
  - exists m16, m0. repeat split; assumption.
Defined.

(** ** Jump-table builder *)

Lemma vec_set_Some {A} (v v' : list A) (i : nat) (x : A) :
  vec_set v i x = Some v' <-> (i < length v)%nat /\ v' = <[i := x]> v.
Proof.
  unfold vec_set. case_decide; split.
  - intros [= <-]. by split.
  - intros [_ ->]. done.
  - done.
  - intros [? _]. lia.
Qed.

Lemma fill_jump_table_length (table : JumpTable) (prog : Program) :
  forall (idx : nat) (jt jt' : list nat),
    fill_jump_table table prog idx jt = Some jt' -> length jt' = length jt.
Proof.
  induction prog as [|ins rest IH]; intros idx jt jt' H; simpl in H.
  - by injection H as <-.
  - destruct (is_jump ins).
    + destruct (vec_set jt idx (jump_target table ins idx)) as [jt1|] eqn:E;
        simpl in H; [| done].
      apply vec_set_Some in E as [_ ->].
      apply IH in H. by rewrite length_insert in H.
    + by apply IH in H.
Qed.

(** Positions before [idx] are not written by the loop from [idx] on. *)
Lemma fill_jump_table_below (table : JumpTable) (prog : Program) :
  forall (idx : nat) (jt jt' : list nat) (j : nat),
    fill_jump_table table prog idx jt = Some jt' ->
    (j < idx)%nat -> jt' !! j = jt !! j.
Proof.
  induction prog as [|ins rest IH]; intros idx jt jt' j H Hj; simpl in H.
  - by injection H as <-.
  - destruct (is_jump ins).
    + destruct (vec_set jt idx (jump_target table ins idx)) as [jt1|] eqn:E;
        simpl in H; [| done].
      apply vec_set_Some in E as [_ ->].
      rewrite (IH _ _ _ j H) by lia.
      apply list_lookup_insert_ne. lia.
    + apply (IH _ _ _ j H). lia.
Qed.

(** The loop completes exactly when every jump instruction it meets sits at
    a position inside the table. *)
Lemma fill_jump_table_is_Some (table : JumpTable) (prog : Program) :
  forall (idx : nat) (jt : list nat),
    is_Some (fill_jump_table table prog idx jt) <->
    (forall i ins, prog !! i = Some ins -> is_jump ins = true ->
                   (idx + i < length jt)%nat).
Proof.
  induction prog as [|ins rest IH]; intros idx jt; simpl.
  - split; [intros _ i ins H; by destruct i | intros _; by eexists].
  - destruct (is_jump ins) eqn:Ej.
    + unfold vec_set. case_decide as Hlt; simpl.
      * rewrite IH, length_insert. split.
        -- intros H [|i] ins' Hi Hj'; [lia |].
           specialize (H i ins' Hi Hj'). lia.
        -- intros H i ins' Hi Hj'.
           specialize (H (S i) ins' Hi Hj'). lia.
      * split; [by intros [? ?] |].
        intros H. specialize (H 0%nat ins eq_refl Ej). lia.
    + rewrite IH. split.
      * intros H [|i] ins' Hi Hj'.
        -- simpl in Hi. injection Hi as <-. congruence.
        -- specialize (H i ins' Hi Hj'). lia.
      * intros H i ins' Hi Hj'.
        specialize (H (S i) ins' Hi Hj'). lia.
Qed.

(** After the loop, the entry of every jump instruction is its target. *)
Lemma fill_jump_table_entry (table : JumpTable) (prog : Program) :
  forall (idx : nat) (jt jt' : list nat) (i : nat) (ins : Instruction),
    fill_jump_table table prog idx jt = Some jt' ->
    prog !! i = Some ins -> is_jump ins = true ->
    jt' !! (idx + i)%nat = Some (jump_target table ins (idx + i)).
Proof.
  induction prog as [|ins0 rest IH]; intros idx jt jt' i ins H Hi Hj;
    [by destruct i |].
  simpl in H. destruct i as [|i]; simpl in Hi.
  - injection Hi as ->. rewrite Hj in H.
    destruct (vec_set jt idx (jump_target table ins idx)) as [jt1|] eqn:E;
      simpl in H; [| done].
    apply vec_set_Some in E as [Hlt ->].
    rewrite Nat.add_0_r.
    rewrite (fill_jump_table_below _ _ _ _ _ idx H) by lia.
    by apply list_lookup_insert_eq.
  - replace (idx + S i)%nat with (S idx + i)%nat by lia.
    destruct (is_jump ins0).
    + destruct (vec_set jt idx (jump_target table ins0 idx)) as [jt1|] eqn:E;
        simpl in H; [| done].
      by apply (IH _ _ _ _ _ H).
    + by apply (IH _ _ _ _ _ H).
Qed.

Section JumpTableProperties.

Context {F : FloatOps}.
Variable START_TAG : Tag.
Variable InitializeAnchors : Program -> JumpTable.
Variable launch_core : Tag -> JumpTable -> Core.

Local Abbreviation InitState := (InitializeState START_TAG InitializeAnchors launch_core).

(** What [InitializeState] leaves behind when it completes: the program is
    kept and the jump table is the one the loop computed from the table
    resized to its capacity. *)
Lemma InitializeState_Some (w : SGPWorld) (c c' : CPU) :
  InitState w c = Some c' ->
  program c' = program c /\
  fill_jump_table (InitializeAnchors (program c)) (program c) 0
    (resize jump_table_capacity 0%nat (jump_table (cpu_state c)))
  = Some (jump_table (cpu_state c')).
Proof.
  unfold InitializeState, HasActiveCore. simpl.
  destruct (active_core (cpu c)); simpl;
    (destruct (fill_jump_table _ _ _ _) as [jt|]; simpl; [| done]);
    intros [= <-]; by simpl.
Qed.

Lemma InitializeState_is_Some (w : SGPWorld) (c : CPU) :
  is_Some (InitState w c) <->
  is_Some (fill_jump_table (InitializeAnchors (program c)) (program c) 0
             (resize jump_table_capacity 0%nat (jump_table (cpu_state c)))).
Proof.
  unfold InitializeState, HasActiveCore. simpl.
  destruct (active_core (cpu c)); simpl;
    (destruct (fill_jump_table _ _ _ _) as [jt|]; simpl);
    split; intros [x Hx]; try done; by eexists.
Qed.

Lemma InitializeState_jump_table_length (w : SGPWorld) (c c' : CPU) :
  InitState w c = Some c' ->
  length (jump_table (cpu_state c')) = jump_table_capacity.
Proof.
  intros H. apply InitializeState_Some in H as [_ H].
  apply fill_jump_table_length in H. by rewrite length_resize in H.
Qed.

Lemma InitializeState_completes (w : SGPWorld) (c : CPU) :
  is_Some (InitState w c) <->
  (forall i ins, program c !! i = Some ins -> is_jump ins = true ->
                 (i < jump_table_capacity)%nat).
Proof.
  rewrite InitializeState_is_Some, fill_jump_table_is_Some.
  by setoid_rewrite length_resize.
Qed.

(** C10. [InitializeState] gives the jump table the fixed capacity of 100
    entries and writes one entry at the position of every jump instruction.
    The writes stay inside the table exactly when every jump instruction sits
    at a position below 100; in particular no out-of-range access happens for
    a program of at most 100 instructions. *)
Theorem C10_jump_table_bounds (w : SGPWorld) (c : CPU) :
  jump_table_capacity = 100%nat /\
  (is_Some (InitState w c) <->
   (forall i ins, program c !! i = Some ins -> is_jump ins = true ->
                  (i < 100)%nat)) /\
  ((length (program c) <= 100)%nat -> is_Some (InitState w c)) /\
  (forall c', InitState w c = Some c' ->
     length (jump_table (cpu_state c')) = 100%nat).
Proof.
  split; [reflexivity |]. split; [apply InitializeState_completes |].
  split.
  - intros Hlen. apply InitializeState_completes.
    intros i ins Hi _. apply lookup_lt_Some in Hi.
    unfold jump_table_capacity. lia.
  - intros c'. apply InitializeState_jump_table_length.
Qed.

(** C1, as amended. After the jump table is rebuilt (construction of a CPU,
    Reset, Mutate) its size is the fixed capacity 100, whatever the length
    of the program; it equals the length of the program exactly when the
    program has 100 instructions. *)
Theorem C1_jump_table_size
    (ApplyPointMutations : num -> Program -> Program)
    (CreateStartProgram : Config -> Program)
    (w : SGPWorld) (organism : OrgPtr) (p : Program) (c c' : CPU) :
  CPU_ancestor START_TAG InitializeAnchors launch_core CreateStartProgram organism w = Some c' \/
  CPU_copy START_TAG InitializeAnchors launch_core organism w p = Some c' \/
  Reset START_TAG InitializeAnchors launch_core w c = Some c' \/
  Mutate START_TAG InitializeAnchors launch_core ApplyPointMutations w c = Some c' ->
  length (jump_table (cpu_state c')) = 100%nat /\
  (length (jump_table (cpu_state c')) = length (program c') <->
   length (program c') = 100%nat).
Proof.
  intros H.
  assert (Hlen : length (jump_table (cpu_state c')) = 100%nat).
  { destruct H as [H | [H | [H | H]]];
      by apply InitializeState_jump_table_length in H. }
  split; [done |]. rewrite Hlen. split; congruence.
Qed.

(** C6, as amended. When every jump instruction (JumpIfNEq or JumpIfLess) of
    the program sits at a position below 100, the capacity of the jump
    table, the build completes, and for every jump instruction at position
    [i] the entry at [i] is [i + 1] if its tag matches no global anchor, and
    the position of the first-ranked matching anchor otherwise. *)
Theorem C6_jump_targets (w : SGPWorld) (c : CPU) :
  (forall i ins, program c !! i = Some ins -> is_jump ins = true ->
                 (i < 100)%nat) ->
  exists c', InitState w c = Some c' /\
    let table := InitializeAnchors (program c) in
    forall i ins, program c !! i = Some ins -> is_jump ins = true ->
      (MatchRegulated table (tag ins) = [] ->
         jump_table (cpu_state c') !! i = Some (i + 1)%nat) /\
      (forall u rest, MatchRegulated table (tag ins) = u :: rest ->
         jump_table (cpu_state c') !! i = Some (GetVal table u)).
Proof.
  intros Hb. destruct (proj2 (InitializeState_completes w c) Hb) as [c' Hc'].
  exists c'. split; [done |]. intros table i ins Hi Hj.
  apply InitializeState_Some in Hc' as [_ Hfill].
  pose proof (fill_jump_table_entry _ _ _ _ _ i ins Hfill Hi Hj) as He.
  simpl in He. unfold jump_target in He. fold table in He.
  split.
  - intros Hm. by rewrite Hm in He.
  - intros u rest Hm. by rewrite Hm in He.
Qed.

End JumpTableProperties.

Lemma C10_jump_table_bounds_witness :
  let c := {| cpu := Cpu_new; program := short_program;
              cpu_state := demo_state 0 |} in
  (length (program c) <= 100)%nat /\
  is_Some (InitializeState 0 (fun _ => demo_anchors) demo_launch demo_world c).
Proof.
  intros c.
  assert (Hlen : (length (program c) <= 100)%nat) by (simpl; lia).
  split; [exact Hlen |].
  exact (proj1 (proj2 (proj2
    (C10_jump_table_bounds 0 (fun _ => demo_anchors) demo_launch demo_world c))) Hlen).
Defined.

Lemma C1_jump_table_size_witness :
  exists c',
    CPU_copy 0 (fun _ => demo_anchors) demo_launch 0%nat demo_world short_program = Some c' /\
    length (jump_table (cpu_state c')) = 100%nat.
Proof.
  eexists. split; [reflexivity |].
  eapply (C1_jump_table_size 0 (fun _ => demo_anchors) demo_launch
            demo_mutation (fun _ => short_program) demo_world 0%nat short_program
            {| cpu := Cpu_new; program := []; cpu_state := demo_state 0 |}).
  right. left. reflexivity.
Defined.

(** The statement of C1 fails: a three-instruction program, copied into a new
    CPU, reset, or mutated (here into a two-instruction program), always ends
    with a table of 100 entries. *)
Lemma C1_size_not_program_length :
  exists c1 c2 c3,
    CPU_copy 0 (fun _ => demo_anchors) demo_launch 0%nat demo_world short_program = Some c1 /\
    Reset 0 (fun _ => demo_anchors) demo_launch demo_world c1 = Some c2 /\
    Mutate 0 (fun _ => demo_anchors) demo_launch demo_mutation demo_world c1 = Some c3 /\
    length (program c1) = 3%nat /\ length (jump_table (cpu_state c1)) = 100%nat /\
    length (program c2) = 3%nat /\ length (jump_table (cpu_state c2)) = 100%nat /\
    length (program c3) = 2%nat /\ length (jump_table (cpu_state c3)) = 100%nat /\
    length (jump_table (cpu_state c1)) <> length (program c1) /\
    length (jump_table (cpu_state c2)) <> length (program c2) /\
    length (jump_table (cpu_state c3)) <> length (program c3).
Proof.
  do 3 eexists.
  split; [reflexivity |]. split; [reflexivity |]. split; [reflexivity |].
  repeat split; try reflexivity; simpl; lia.
Qed.

Lemma C6_jump_targets_witness :
  let c := {| cpu := Cpu_new; program := short_program;
              cpu_state := demo_state 0 |} in
  exists c',
    InitializeState 0 (fun _ => demo_anchors) demo_launch demo_world c = Some c' /\
    jump_table (cpu_state c') !! 0%nat = Some 30%nat /\
    jump_table (cpu_state c') !! 2%nat = Some 3%nat.
Proof.
  intros c.
  destruct (C6_jump_targets 0 (fun _ => demo_anchors) demo_launch demo_world c)
    as (c' & Hc' & He).
  - intros i ins Hi _. apply lookup_lt_Some in Hi. simpl in Hi. lia.
  - exists c'. split; [exact Hc' |]. split.
    + exact (proj2 (He 0%nat (jump_ins JumpIfNEq 42) eq_refl eq_refl)
               3%nat [1%nat] eq_refl).
    + exact (proj1 (He 2%nat (jump_ins JumpIfLess 5) eq_refl eq_refl) eq_refl).
Defined.

(** The statement of C6 fails: a jump instruction at position 100 whose tag
    matches no anchor is outside the table. The write of its entry is out of
    range, the build has no defined result, and no table holds the entry
    [101] at position 100. *)
Lemma C6_no_entry_beyond_capacity :
  long_program !! 100%nat = Some (jump_ins JumpIfNEq 5) /\
  is_jump (jump_ins JumpIfNEq 5) = true /\
  MatchRegulated demo_anchors (tag (jump_ins JumpIfNEq 5)) = [] /\
  CPU_copy 0 (fun _ => demo_anchors) demo_launch 0%nat demo_world long_program = None /\
  ~ (exists c',
       CPU_copy 0 (fun _ => demo_anchors) demo_launch 0%nat demo_world long_program = Some c' /\
       jump_table (cpu_state c') !! 100%nat = Some 101%nat).
Proof.
  assert (H : CPU_copy 0 (fun _ => demo_anchors) demo_launch 0%nat demo_world
                long_program = None) by reflexivity.
  repeat split; try reflexivity.
  intros (c' & Hc' & _). rewrite H in Hc'. discriminate.
Qed.

(** ** Reproduction *)

(** C2. Reproduce, executed by an organism [o], takes effect if and only if
    no reproduction is pending, the location is valid and the points of [o]
    exceed its role's cost. It then appends the single entry (organism,
    location) to the reproduction queue, debits the cost from the points of
    [o] and sets the marker to the index of the new entry. In every other
    case the machine (points, queue and marker included) is left as it was. *)
Theorem C2_reproduce `{F : FloatOps} (m : Machine) (o : Organism) :
  organisms (world m) !! host (state m) = Some o ->
  exists m', inst_Reproduce m = Some m' /\
    (may_reproduce m o = true ->
       to_reproduce (world m') =
         to_reproduce (world m) ++ [(host (state m), location (state m))] /\
       organisms (world m') !! host (state m) =
         Some (AddPoints o (fneg (repro_cost (world m) o))) /\
       (forall p, p <> host (state m) ->
          organisms (world m') !! p = organisms (world m) !! p) /\
       in_progress_repro (state m') = Z.of_nat (length (to_reproduce (world m))) /\
       to_reproduce (world m') !! Z.to_nat (in_progress_repro (state m')) =
         Some (host (state m), location (state m))) /\
    (may_reproduce m o = false -> m' = m) /\
    (length (to_reproduce (world m')) = S (length (to_reproduce (world m)))
     <-> may_reproduce m o = true).
Proof.
  intros Ho. unfold inst_Reproduce, may_reproduce, repro_cost.
  destruct (in_progress_repro (state m) =? -1) eqn:Ep; simpl.
  2:{ exists m. split; [done |]. split; [done |]. split; [done |].
      split; [lia | done]. }
  destruct (IsValid (location (state m))) eqn:Ev; simpl.
  2:{ exists m. split; [done |]. split; [done |]. split; [done |].
      split; [lia | done]. }
  rewrite Ho. simpl.
  destruct (fgt (org_points o) _) eqn:Eg.
  - eexists. split; [reflexivity |]. simpl.
    split; [| split; [done |]].
    + intros _. split; [done |]. split; [by rewrite lookup_insert_eq |].
      split; [intros p Hp; by rewrite lookup_insert_ne |].
      split; [done |].
      rewrite Nat2Z.id. rewrite lookup_app_r by lia.
      by rewrite Nat.sub_diag.
    + rewrite length_app. simpl. split; [done | lia].
  - exists m. split; [done |]. split; [done |]. split; [done |].
    split; [lia | done].
Qed.

Lemma C2_reproduce_witness :
  let m := demo_machine 0 0 0 0 0 in
  exists m', inst_Reproduce m = Some m' /\
    to_reproduce (world m') = [(0%nat, location (state m))] /\
    in_progress_repro (state m') = 0 /\
    (org_points <$> organisms (world m') !! 0%nat) = Some (100 + - (60))%Q.
Proof.
  intros m.
  destruct (C2_reproduce m demo_host eq_refl) as (m' & Hrun & Hyes & _ & _).
  destruct (Hyes eq_refl) as (Hq & Hp & _ & Hmark & _).
  exists m'. split; [exact Hrun |]. split; [exact Hq |].
  split; [exact Hmark |]. exact (f_equal (fmap org_points) Hp).
Defined.

(** ** Task scores *)

Section ScoreLemmas.

Context {F : FloatOps}.

(** The effect of [AddOrganismPoints] on the world, for an organism [o] at
    the address the state holds: nothing for a zero score; otherwise the
    full score is credited, and recorded when [o] is a symbiont. *)
Lemma AddOrganismPoints_Some (st : CPUState) (w : SGPWorld) (output : Z) (o : Organism) :
  organisms w !! host st = Some o ->
  let score := CheckTasks (task_set w) st output true in
  AddOrganismPoints st w output =
    Some (if fneq score (flit 0) then
            let w1 := set_org w (host st) (AddPoints o score) in
            if org_is_host o then w1 else add_SymEarned w1 score
          else w).
Proof.
  intros Ho score. unfold AddOrganismPoints. fold score.
  destruct (fneq score (flit 0)); [| done].
  rewrite Ho. simpl. by destruct (org_is_host o).
Qed.

Lemma AddOrganismPoints_role (st : CPUState) (w w1 : SGPWorld) (output : Z) (o : Organism) :
  organisms w !! host st = Some o ->
  AddOrganismPoints st w output = Some w1 ->
  exists o1, organisms w1 !! host st = Some o1 /\ org_is_host o1 = org_is_host o.
Proof.
  intros Ho H. rewrite (AddOrganismPoints_Some _ _ _ o Ho) in H.
  injection H as <-.
  destruct (fneq _ _); [| by exists o].
  destruct (org_is_host o) eqn:E; simpl; rewrite lookup_insert_eq;
    by eexists.
Qed.

Lemma PrivateIO_credit (m : Machine) (ra : nat) (draw a : Z) (o : Organism) :
  registers (core m) !! ra = Some a ->
  organisms (world m) !! host (state m) = Some o ->
  let score := CheckTasks (task_set (world m)) (state m) a false in
  fneq score (flit 0) = true ->
  exists m', inst_PrivateIO ra draw m = Some m' /\
    organisms (world m') !! host (state m) =
      Some (AddPoints o (if org_is_host o
                         then fround (fmul score (flit (3 # 4)))
                         else score)) /\
    SymEarnedData (world m') =
      (if org_is_host o then SymEarnedData (world m)
       else SymEarnedData (world m) ++ [score]).
Proof.
  intros Ha Ho score Hnz. unfold inst_PrivateIO, get_reg.
  rewrite Ha. simpl. fold score. rewrite Hnz, Ho. simpl.
  rewrite (set_reg_Some _ _ a) by done.
  destruct (org_is_host o); simpl; eexists;
    (split; [reflexivity |]); simpl; by rewrite lookup_insert_eq.
Qed.

Lemma SharedIO_credit (m : Machine) (ra : nat) (draw a : Z) (o : Organism) :
  registers (core m) !! ra = Some a ->
  organisms (world m) !! host (state m) = Some o ->
  let score := CheckTasks (task_set (world m)) (state m) a true in
  fneq score (flit 0) = true ->
  exists m', inst_SharedIO ra draw m = Some m' /\
    organisms (world m') !! host (state m) = Some (AddPoints o score) /\
    SymEarnedData (world m') =
      (if org_is_host o then SymEarnedData (world m)
       else SymEarnedData (world m) ++ [score]).
Proof.
  intros Ha Ho score Hnz. unfold inst_SharedIO, get_reg.
  rewrite Ha. simpl.
  rewrite (AddOrganismPoints_Some _ _ _ o Ho). fold score. rewrite Hnz. simpl.
  rewrite (set_reg_Some _ _ a) by done.
  destruct (org_is_host o); simpl; eexists;
    (split; [reflexivity |]); simpl; by rewrite lookup_insert_eq.
Qed.

End ScoreLemmas.

(** C3. For a nonzero score [s] of the scorer, PrivateIO credits a host with
    [s] times [0.75] and a symbiont with the full [s], which it also records
    in the symbiont-earned monitor; SharedIO credits the full [s] to either
    role. In particular a host whose scorer returns [10] gains [7.5] points
    by PrivateIO and [10] points by SharedIO. *)
Theorem C3_io_credit :
  (forall (F : FloatOps) (m : Machine) (ra : nat) (draw a : Z) (o : Organism),
     registers (core m) !! ra = Some a ->
     organisms (world m) !! host (state m) = Some o ->
     let priv := CheckTasks (task_set (world m)) (state m) a false in
     let shar := CheckTasks (task_set (world m)) (state m) a true in
     (fneq priv (flit 0) = true ->
      exists m', inst_PrivateIO ra draw m = Some m' /\
        organisms (world m') !! host (state m) =
          Some (AddPoints o (if org_is_host o
                             then fround (fmul priv (flit (3 # 4)))
                             else priv)) /\
        SymEarnedData (world m') =
          (if org_is_host o then SymEarnedData (world m)
           else SymEarnedData (world m) ++ [priv])) /\
     (fneq shar (flit 0) = true ->
      exists m', inst_SharedIO ra draw m = Some m' /\
        organisms (world m') !! host (state m) = Some (AddPoints o shar))) /\
  (let m := demo_machine 0 0 0 0 0 in
   CheckTasks (task_set (world m)) (state m) 0 false = 10%Q /\
   CheckTasks (task_set (world m)) (state m) 0 true = 10%Q /\
   exists m1 m2 o1 o2,
     inst_PrivateIO 0 0 m = Some m1 /\
     inst_SharedIO 0 0 m = Some m2 /\
     organisms (world m1) !! 0%nat = Some o1 /\
     organisms (world m2) !! 0%nat = Some o2 /\
     (org_points o1 - org_points demo_host == 15 # 2)%Q /\
     (org_points o2 - org_points demo_host == 10)%Q).
Proof.
  split.
  - intros F m ra draw a o Ha Ho priv shar. split; intros Hnz.
    + by apply PrivateIO_credit.
    + destruct (SharedIO_credit m ra draw a o Ha Ho Hnz) as (m' & H1 & H2 & _).
      by exists m'.
  - intros m. split; [reflexivity |]. split; [reflexivity |].
    do 4 eexists.
    split; [reflexivity |]. split; [reflexivity |].
    split; [reflexivity |]. split; [reflexivity |].
    split; reflexivity.
Qed.

Lemma C3_io_credit_witness :
  let m := demo_machine 1 0 0 0 0 in
  exists m', inst_PrivateIO 0 0 m = Some m' /\
    organisms (world m') !! 1%nat = Some (AddPoints demo_sym 10%Q) /\
    SymEarnedData (world m') = [10%Q].
Proof.
  intros m.
  destruct (proj1 C3_io_credit QOps m 0%nat 0 0 demo_sym eq_refl eq_refl)
    as [Hpriv _].
  exact (Hpriv eq_refl).
Defined.

(** ** Comparisons of binary64 values *)

Lemma spec_float_nan_dec (x : spec_float) : x = S754_nan \/ x <> S754_nan.
Proof. destruct x; by (left + right). Qed.

Lemma SFcompare_refl (x : spec_float) : x <> S754_nan -> SFcompare x x = Some Eq.
Proof.
  destruct x as [s|s| |s m e]; intros H; try done; simpl.
  - by destruct s.
  - rewrite Z.compare_refl, Pos.compare_cont_refl. by destruct s.
Qed.

Lemma SFcompare_Lt_Gt (x y : spec_float) :
  SFcompare x y = Some Lt -> SFcompare y x = Some Gt.
Proof.
  destruct x as [s1|s1| |s1 m1 e1], y as [s2|s2| |s2 m2 e2]; simpl;
    try discriminate; try (destruct s1; discriminate || done);
    try (destruct s2; discriminate || done);
    try (destruct s1, s2; discriminate || done).
  change (Pos.compare_cont Eq m1 m2) with (Pos.compare m1 m2).
  change (Pos.compare_cont Eq m2 m1) with (Pos.compare m2 m1).
  rewrite (Z.compare_antisym e1 e2), (Pos.compare_antisym m1 m2).
  destruct s1, s2, (e1 ?= e2), (m1 ?= m2)%positive; simpl; try discriminate; done.
Qed.

Lemma b64_ltb_irrefl (x : float) : PrimFloat.ltb x x = false.
Proof.
  rewrite FloatAxioms.ltb_spec. unfold SFltb.
  destruct (SFcompare (Prim2SF x) (Prim2SF x)) as [[]|] eqn:E; try done.
  apply SFcompare_Lt_Gt in E as E'. congruence.
Qed.

Lemma b64_ltb_asym (x y : float) :
  PrimFloat.ltb y x = true -> PrimFloat.ltb x y = false.
Proof.
  rewrite !FloatAxioms.ltb_spec. unfold SFltb.
  destruct (SFcompare (Prim2SF y) (Prim2SF x)) as [[]|] eqn:E; try done.
  intros _. by rewrite (SFcompare_Lt_Gt _ _ E).
Qed.

Lemma b64_ltb_nan_l (x y : float) :
  PrimFloat.is_nan x = true -> PrimFloat.ltb x y = false.
Proof.
  unfold PrimFloat.is_nan. rewrite FloatAxioms.eqb_spec, FloatAxioms.ltb_spec.
  unfold SFeqb, SFltb. intros H.
  destruct (spec_float_nan_dec (Prim2SF x)) as [-> | Hn]; [done |].
  by rewrite (SFcompare_refl _ Hn) in H.
Qed.

(** [fmin x y] is never greater than [x], whatever the two values, infinite
    or NaN included. *)
Lemma b64_fmin_cap (x y : float) : PrimFloat.ltb x (b64_fmin x y) = false.
Proof.
  unfold b64_fmin.
  destruct (PrimFloat.is_nan x) eqn:Ex; [by apply b64_ltb_nan_l |].
  destruct (PrimFloat.is_nan y); [apply b64_ltb_irrefl |].
  destruct (PrimFloat.ltb y x) eqn:E; [by apply b64_ltb_asym | apply b64_ltb_irrefl].
Qed.

(** ** Donation and theft *)

Section TransferLemmas.

Context {F : FloatOps}.

(** Donate by a symbiont [sym] whose host reference [hp] leads to another
    organism [h]: the amount is recorded, [h] is credited with the amount
    less the penalty, [sym] is debited the amount. *)
Lemma Donate_effect (m : Machine) (sym h : Organism) (hp : OrgPtr) :
  DONATION_STEAL_INST (config (world m)) = true ->
  organisms (world m) !! host (state m) = Some sym ->
  org_is_host sym = false ->
  org_host sym = Some hp ->
  organisms (world m) !! hp = Some h ->
  hp <> host (state m) ->
  let t := fmin (org_points sym)
             (fmul (fadd (org_points sym) (org_points h)) (flit (1 # 5))) in
  exists m', inst_Donate m = Some m' /\
    core m' = core m /\ state m' = state m /\
    organisms (world m') !! host (state m) = Some (AddPoints sym (fneg t)) /\
    organisms (world m') !! hp =
      Some (AddPoints h (fmul t (fsub (flit 1) (DONATE_PENALTY (config (world m)))))) /\
    SymDonatedData (world m') = SymDonatedData (world m) ++ [t].
Proof.
  intros Hen Hs Hrole Hh Hhp Hne t. unfold inst_Donate.
  rewrite Hen, Hs. simpl. rewrite Hrole, Hh, Hhp. simpl.
  rewrite lookup_insert_ne by done. rewrite Hs. simpl.
  eexists. split; [reflexivity |]. simpl.
  split; [done |]. split; [done |].
  split; [by rewrite lookup_insert_eq |].
  split; [| done].
  rewrite lookup_insert_ne by done. by rewrite lookup_insert_eq.
Qed.

Lemma Steal_effect (m : Machine) (sym h : Organism) (hp : OrgPtr) :
  DONATION_STEAL_INST (config (world m)) = true ->
  organisms (world m) !! host (state m) = Some sym ->
  org_is_host sym = false ->
  org_host sym = Some hp ->
  organisms (world m) !! hp = Some h ->
  hp <> host (state m) ->
  let t := fmin (org_points h)
             (fmul (fadd (org_points sym) (org_points h)) (flit (1 # 5))) in
  exists m', inst_Steal m = Some m' /\
    core m' = core m /\ state m' = state m /\
    organisms (world m') !! hp = Some (AddPoints h (fneg t)) /\
    organisms (world m') !! host (state m) =
      Some (AddPoints sym (fmul t (fsub (flit 1) (STEAL_PENALTY (config (world m)))))) /\
    SymStolenData (world m') = SymStolenData (world m) ++ [t].
Proof.
  intros Hen Hs Hrole Hh Hhp Hne t. unfold inst_Steal.
  rewrite Hen, Hs. simpl. rewrite Hrole, Hh, Hhp. simpl.
  rewrite lookup_insert_ne by done. rewrite Hs. simpl.
  eexists. split; [reflexivity |]. simpl.
  split; [done |]. split; [done |].
  split; [| split; [by rewrite lookup_insert_eq | done]].
  rewrite lookup_insert_ne by done. by rewrite lookup_insert_eq.
Qed.

End TransferLemmas.

(** C4, as amended. For a symbiont [sym] with a live reference to its host
    [h] and donation/theft enabled, in any arithmetic on points (binary64
    included): Donate takes [t = fmin (points sym) (20% of (points sym +
    points h))] out of [sym] and credits [h] with [t * (1 - DONATE_PENALTY)];
    Steal takes [t = fmin (points h) (20% of (points sym + points h))] out
    of [h] and credits [sym] with [t * (1 - STEAL_PENALTY)]; in both cases
    [t] itself (before the penalty) is what the monitor records. In binary64
    [t] is never greater than the balance of the source, whatever the two
    arguments of [fmin]. With exact rationals [t] is at most the balance of
    the source and the sum of the two balances drops by exactly the penalty
    fraction of [t]. *)
Theorem C4_donate_steal :
  (forall (F : FloatOps) (m : Machine) (sym h : Organism) (hp : OrgPtr),
     DONATION_STEAL_INST (config (world m)) = true ->
     organisms (world m) !! host (state m) = Some sym ->
     org_is_host sym = false ->
     org_host sym = Some hp ->
     organisms (world m) !! hp = Some h ->
     hp <> host (state m) ->
     let total := fadd (org_points sym) (org_points h) in
     (let t := fmin (org_points sym) (fmul total (flit (1 # 5))) in
      let pen := DONATE_PENALTY (config (world m)) in
      exists m' sym' h', inst_Donate m = Some m' /\
        organisms (world m') !! host (state m) = Some sym' /\
        organisms (world m') !! hp = Some h' /\
        org_points sym' = fadd (org_points sym) (fneg t) /\
        org_points h' = fadd (org_points h) (fmul t (fsub (flit 1) pen)) /\
        SymDonatedData (world m') = SymDonatedData (world m) ++ [t]) /\
     (let t := fmin (org_points h) (fmul total (flit (1 # 5))) in
      let pen := STEAL_PENALTY (config (world m)) in
      exists m' sym' h', inst_Steal m = Some m' /\
        organisms (world m') !! host (state m) = Some sym' /\
        organisms (world m') !! hp = Some h' /\
        org_points h' = fadd (org_points h) (fneg t) /\
        org_points sym' = fadd (org_points sym) (fmul t (fsub (flit 1) pen)) /\
        SymStolenData (world m') = SymStolenData (world m) ++ [t])) /\
  (forall source other : @num B64Ops, fgt (fmin source other) source = false) /\
  (forall source other pen : @num QOps,
     let total := (source + other)%Q in
     let t := fmin source (fmul total (flit (1 # 5))) in
     (t <= source)%Q /\
     (fadd source (fneg t) + fadd other (fmul t (fsub (flit 1) pen))
      == total - pen * t)%Q).
Proof.
  split; [| split].
  - intros F m sym h hp Hen Hs Hrole Hh Hhp Hne total. split.
    + intros t pen.
      destruct (Donate_effect m sym h hp Hen Hs Hrole Hh Hhp Hne)
        as (m' & Hrun & _ & _ & Hs' & Hh' & Hmon).
      exists m', (AddPoints sym (fneg t)), (AddPoints h (fmul t (fsub (flit 1) pen))).
      repeat split; assumption.
    + intros t pen.
      destruct (Steal_effect m sym h hp Hen Hs Hrole Hh Hhp Hne)
        as (m' & Hrun & _ & _ & Hh' & Hs' & Hmon).
      exists m', (AddPoints sym (fmul t (fsub (flit 1) pen))), (AddPoints h (fneg t)).
      repeat split; assumption.
  - intros source other. apply b64_fmin_cap.
  - intros source other pen total t. split.
    + apply Q.le_min_l.
    + simpl. unfold total. ring.
Qed.

(** Donate and Steal in binary64 with a penalty of [0.1]: [t] is
    [0.06000000000000001]; Donate leaves [0.039999999999999994] and [0.254],
    Steal leaves [0.15400000000000003] and [0.14]. *)
Lemma C4_donate_steal_witness :
  (let m := b64_machine (1 # 10) in
   exists m1 m2 s1 h1 s2 h2,
     inst_Donate m = Some m1 /\ inst_Steal m = Some m2 /\
     organisms (world m1) !! 1%nat = Some s1 /\
     organisms (world m1) !! 0%nat = Some h1 /\
     organisms (world m2) !! 1%nat = Some s2 /\
     organisms (world m2) !! 0%nat = Some h2 /\
     org_points s1 = b64 0x1.47ae147ae147ap-5 /\
     org_points h1 = b64 0x1.04189374bc6a8p-2 /\
     org_points s2 = b64 0x1.3b645a1cac084p-3 /\
     org_points h2 = b64 0x1.1eb851eb851ecp-3 /\
     SymDonatedData (world m1) = [b64 0x1.eb851eb851ebap-5] /\
     SymStolenData (world m2) = [b64 0x1.eb851eb851ebap-5]) /\
  PrimFloat.ltb 0x1.999999999999ap-4 (b64_fmin 0x1.999999999999ap-4 0x1.eb851eb851ebap-5)
    = false /\
  (Qmin 50 ((50 + 100) * (1 # 5)) <= 50)%Q /\
  ((50 + - Qmin 50 ((50 + 100) * (1 # 5)))
   + (100 + Qmin 50 ((50 + 100) * (1 # 5)) * (1 - (1 # 10)))
   == 150 - (1 # 10) * Qmin 50 ((50 + 100) * (1 # 5)))%Q.
Proof.
  destruct C4_donate_steal as (Hany & Hcap & Hexact).
  split; [| split;
    [exact (Hcap (b64 0x1.999999999999ap-4) (b64 0x1.eb851eb851ebap-5))
    | exact (Hexact 50 100 (1 # 10))%Q]].
  intros m.
  destruct (Hany B64Ops m b64_sym b64_host 0%nat eq_refl eq_refl eq_refl
              eq_refl eq_refl) as [HD HS]; [simpl; lia |].
  destruct HD as (m1 & s1 & h1 & R1 & Ls1 & Lh1 & Ps1 & Ph1 & M1).
  destruct HS as (m2 & s2 & h2 & R2 & Ls2 & Lh2 & Ph2 & Ps2 & M2).
  exists m1, m2, s1, h1, s2, h2.
  split; [exact R1 |]. split; [exact R2 |].
  split; [exact Ls1 |]. split; [exact Lh1 |].
  split; [exact Ls2 |]. split; [exact Lh2 |].
  split; [exact Ps1 |]. split; [exact Ph1 |].
  split; [exact Ps2 |]. split; [exact Ph2 |].
  split; [exact M1 | exact M2].
Defined.

(** The statement of C4 fails in the arithmetic of the source: with balances
    [0.1] (symbiont) and [0.2] (host) and a donation penalty of zero, Donate
    moves [t = 0.06000000000000001] and leaves [0.039999999999999994] and
    [0.26]; the two balances then add up to [0.3], below the
    [0.30000000000000004] they added up to before, although the penalty
    fraction of [t] is zero. *)
Lemma C4_total_not_exact_in_binary64 :
  let m := b64_machine 0 in
  let total := fadd (org_points b64_sym) (org_points b64_host) in
  let t := fmin (org_points b64_sym) (fmul total (flit (1 # 5))) in
  let pen := DONATE_PENALTY (config (world m)) in
  exists m' sym' h',
    inst_Donate m = Some m' /\
    organisms (world m') !! 1%nat = Some sym' /\
    organisms (world m') !! 0%nat = Some h' /\
    SymDonatedData (world m') = [t] /\
    t = b64 0x1.eb851eb851ebap-5 /\
    org_points sym' = b64 0x1.47ae147ae147ap-5 /\
    org_points h' = b64 0x1.0a3d70a3d70a4p-2 /\
    total = b64 0x1.3333333333334p-2 /\
    fadd (org_points sym') (org_points h') = b64 0x1.3333333333333p-2 /\
    PrimFloat.eqb (fmul pen t) 0 = true /\
    PrimFloat.eqb (fadd (org_points sym') (org_points h')) (fsub total (fmul pen t)) = false /\
    PrimFloat.ltb (fadd (org_points sym') (org_points h')) total = true.
Proof.
  intros m total t pen. do 3 eexists.
  repeat (split; [reflexivity |]). reflexivity.
Qed.

(** ** Reuptake *)

Section ReuptakeLemmas.

Context {F : FloatOps}.

Lemma reuptake_effect (env : CPUState -> list Z)
    (set_env : CPUState -> list Z -> CPUState)
    (m : Machine) (ra : nat) (a : Z) (o : Organism) (w1 : SGPWorld) :
  registers (core m) !! ra = Some a ->
  organisms (world m) !! host (state m) = Some o ->
  AddOrganismPoints (state m) (world m) a = Some w1 ->
  (forall rest v, env (state m) = rest ++ [v] ->
     reuptake env set_env ra m =
       Some {| core := write_reg (core m) ra v;
               state := push_input (set_env (state m) rest) v;
               world := if org_is_host o then print_host w1 v else w1 |}) /\
  (env (state m) = [] ->
     reuptake env set_env ra m =
       Some {| core := write_reg (core m) ra 0; state := state m; world := w1 |}).
Proof.
  intros Ha Ho Hw1. unfold reuptake, get_reg.
  rewrite Ha. simpl. rewrite Hw1. simpl.
  destruct (AddOrganismPoints_role _ _ _ _ _ Ho Hw1) as (o1 & Ho1 & Hrole).
  split.
  - intros rest v He. rewrite He, last_snoc, removelast_last.
    rewrite Ho1. simpl. rewrite (set_reg_Some _ _ a) by done. simpl.
    by rewrite Hrole.
  - intros He. rewrite He. simpl.
    by rewrite (set_reg_Some _ _ a).
Qed.

End ReuptakeLemmas.

(** C5, as amended. ReuptakePublic and ReuptakePrivate first score the value
    of the operand register through [AddOrganismPoints], the scoring of
    SharedIO: the scorer is called with the shared flag set and a nonzero
    score is credited in full (and recorded for a symbiont). Then the back
    value of the public, respectively private, internal environment is
    removed, written to the register and appended to the input buffer; when
    that environment is empty the register is set to zero instead. *)
Theorem C5_reuptake `{F : FloatOps} (m : Machine) (ra : nat) (a : Z) (o : Organism) :
  registers (core m) !! ra = Some a ->
  organisms (world m) !! host (state m) = Some o ->
  let st := state m in
  let score := CheckTasks (task_set (world m)) st a true in
  let w1 :=
    if fneq score (flit 0) then
      let w' := set_org (world m) (host st) (AddPoints o score) in
      if org_is_host o then w' else add_SymEarned w' score
    else world m in
  AddOrganismPoints st (world m) a = Some w1 /\
  (forall rest v, internalEnvironment st = rest ++ [v] ->
     inst_ReuptakePublic ra m =
       Some {| core := write_reg (core m) ra v;
               state := push_input (set_internalEnvironment st rest) v;
               world := if org_is_host o then print_host w1 v else w1 |}) /\
  (internalEnvironment st = [] ->
     inst_ReuptakePublic ra m =
       Some {| core := write_reg (core m) ra 0; state := st; world := w1 |}) /\
  (forall rest v, internalEnvironmentPrivate st = rest ++ [v] ->
     inst_ReuptakePrivate ra m =
       Some {| core := write_reg (core m) ra v;
               state := push_input (set_internalEnvironmentPrivate st rest) v;
               world := if org_is_host o then print_host w1 v else w1 |}) /\
  (internalEnvironmentPrivate st = [] ->
     inst_ReuptakePrivate ra m =
       Some {| core := write_reg (core m) ra 0; state := st; world := w1 |}).
Proof.
  intros Ha Ho st score w1.
  assert (Hw1 : AddOrganismPoints st (world m) a = Some w1)
    by apply (AddOrganismPoints_Some _ _ _ o Ho).
  split; [exact Hw1 |].
  destruct (reuptake_effect internalEnvironment set_internalEnvironment
              m ra a o w1 Ha Ho Hw1) as [Hpub Hpub0].
  destruct (reuptake_effect internalEnvironmentPrivate
              set_internalEnvironmentPrivate m ra a o w1 Ha Ho Hw1)
    as [Hpriv Hpriv0].
  repeat split; assumption.
Qed.

Lemma C5_reuptake_witness :
  let m := demo_machine 1 5 0 0 0 in
  exists m1 m2,
    inst_ReuptakePublic 0 m = Some m1 /\
    inst_ReuptakePrivate 0 m = Some m2 /\
    registers (core m1) = [12; 0; 0] /\
    internalEnvironment (state m1) = [11] /\
    input_buf (state m1) = [12] /\
    registers (core m2) = [0; 0; 0] /\
    input_buf (state m2) = [] /\
    organisms (world m1) !! 1%nat = Some (AddPoints demo_sym 10%Q) /\
    organisms (world m2) !! 1%nat = Some (AddPoints demo_sym 10%Q).
Proof.
  intros m.
  destruct (C5_reuptake m 0 5 demo_sym eq_refl eq_refl)
    as (_ & Hpub & _ & _ & Hpriv0).
  do 2 eexists.
  split; [exact (Hpub [11] 12 eq_refl) |].
  split; [exact (Hpriv0 eq_refl) |].
  repeat split; reflexivity.
Defined.

(** The statement of C5 fails on the scoring path: with a scorer that pays
    [10] on the shared channel and nothing on the unshared one, a reuptake by
    a host holding [100] points leaves it with [110], where scoring through
    the unshared path would leave [100]. *)
Lemma C5_scoring_not_unshared :
  let m := flag_machine in
  CheckTasks (task_set (world m)) (state m) 5 false = 0%Q /\
  CheckTasks (task_set (world m)) (state m) 5 true = 10%Q /\
  exists m1 m2 wu o1 o2 ou,
    inst_ReuptakePublic 0 m = Some m1 /\
    inst_ReuptakePrivate 0 m = Some m2 /\
    AddOrganismPoints_unshared (state m) (world m) 5 = Some wu /\
    organisms (world m1) !! 0%nat = Some o1 /\
    organisms (world m2) !! 0%nat = Some o2 /\
    organisms wu !! 0%nat = Some ou /\
    (org_points o1 == 110)%Q /\ (org_points o2 == 110)%Q /\
    (org_points ou == 100)%Q /\
    ~ (org_points o1 == org_points ou)%Q /\
    ~ (org_points o2 == org_points ou)%Q.
Proof.
  intros m. split; [reflexivity |]. split; [reflexivity |].
  do 6 eexists.
  do 6 (split; [reflexivity |]).
  split; [reflexivity |]. split; [reflexivity |]. split; [reflexivity |].
  split; intros H; discriminate H.
Qed.

(** * Further properties of the instruction set *)

(** ** One instruction *)

Section StepLemmas.
Context {F : FloatOps}.

(** No instruction body writes the jump table, the location, the organism
    address, the configuration or the task set. *)
Lemma run_state_frame (i : Instruction) (d : Z) (m m' : Machine) :
  run i d m = Some m' ->
  jump_table (state m') = jump_table (state m) /\
  location (state m') = location (state m) /\
  host (state m') = host (state m) /\
  config (world m') = config (world m) /\
  task_set (world m') = task_set (world m).
Proof.
  intros H. inst_unfold. destruct (op_code i); inst_cases; done.
Qed.

(** X3. An instruction never changes the number of registers, and it leaves
    the program counter where it was unless it is a jump instruction, in
    which case the new program counter is the jump-table entry at the old
    one. *)
Theorem step_program_counter (i : Instruction) (d : Z) (m m' : Machine) :
  run i d m = Some m' ->
  length (registers (core m')) = length (registers (core m)) /\
  (program_counter (core m') = program_counter (core m) \/
   is_jump i = true /\
   jump_table (state m) !! program_counter (core m) = Some (program_counter (core m'))).
Proof.
  intros H. inst_unfold. unfold is_jump.
  destruct (op_code i); inst_cases; simpl;
    rewrite ?length_insert; split; auto.
Qed.

(** One instruction keeps both stacks within their capacity. *)
Lemma run_stacks_bounded (i : Instruction) (d : Z) (m m' : Machine) :
  run i d m = Some m' ->
  stacks_bounded (state m) -> stacks_bounded (state m').
Proof.
  intros H [H1 H2]. unfold stacks_bounded. inst_unfold.
  destruct (op_code i); inst_cases; simpl; try (split; assumption).
  - rewrite length_app. simpl. split; lia.
  - split; [| done]. 
    destruct (stack (state m)) as [|x l] using rev_ind; [done|].
    rewrite removelast_last. rewrite length_app in H1. simpl in H1. lia.
Qed.


Lemma next_input_u32 (w : SGPWorld) (d : Z) : u32 (next_input w d).
Proof.
  unfold next_input. destruct (RANDOM_IO_INPUT _); [apply wrap32_range |].
  unfold u32. lia.
Qed.

Lemma Forall_last_u32 (l : list Z) (v : Z) :
  Forall u32 l -> last l = Some v -> u32 v /\ Forall u32 (removelast l).
Proof.
  induction l as [|x l _] using rev_ind; intros Hl Hv; [done |].
  rewrite last_snoc in Hv. injection Hv as ->.
  rewrite removelast_last. apply Forall_app in Hl as [Hl Hx].
  rewrite Forall_singleton in Hx. by split.
Qed.

(** X4. If the registers, both stacks, the input buffer and both internal
    environments hold 32-bit values, they still do after any instruction. *)
Theorem step_keeps_u32 (i : Instruction) (d : Z) (m m' : Machine) :
  run i d m = Some m' -> machine_u32 m -> machine_u32 m'.
Proof.
  intros H (Hr & Hs & Hs2 & Hb & He & Hp).
  unfold machine_u32, state_u32. inst_unfold.
  destruct (op_code i); inst_cases; simpl;
    repeat match goal with
    | H : last _ = Some _ |- _ =>
        apply Forall_last_u32 in H as [? ?]; [| assumption]
    | H : registers _ !! _ = Some _ |- _ =>
        apply (Forall_lookup_1 _ _ _ _ Hr) in H
    end;
    repeat split;
    repeat first
      [ assumption | apply wrap32_range | apply next_input_u32
      | apply Forall_insert | apply Forall_app_2
      | apply Forall_cons_2 | apply Forall_nil_2
      | (unfold u32; lia) ].
Qed.

(** One instruction either leaves the reproduction queue and the marker
    alone, or (Reproduce, idle, valid location) appends this organism. *)
Lemma run_queue (i : Instruction) (d : Z) (m m' : Machine) :
  run i d m = Some m' ->
  (to_reproduce (world m') = to_reproduce (world m) /\
   in_progress_repro (state m') = in_progress_repro (state m)) \/
  (in_progress_repro (state m) = -1 /\
   IsValid (location (state m)) = true /\
   to_reproduce (world m') =
     to_reproduce (world m) ++ [(host (state m), location (state m))] /\
   in_progress_repro (state m') = Z.of_nat (length (to_reproduce (world m)))).
Proof.
  intros H. inst_unfold.
  destruct (op_code i); inst_cases; simpl; auto.
  all: right.
  all: match goal with Hg : _ || _ = false |- _ =>
    apply orb_false_elim in Hg as [Hpend Hval] end.
  all: apply negb_false_iff in Hpend, Hval; apply Z.eqb_eq in Hpend; auto.
Qed.

(** One instruction leaves every organism other than the executing one and
    its host as it was. *)
Lemma run_organisms (i : Instruction) (d : Z) (m m' : Machine) (p : OrgPtr) :
  run i d m = Some m' ->
  p <> host (state m) ->
  (forall o, organisms (world m) !! host (state m) = Some o -> org_host o <> Some p) ->
  organisms (world m') !! p = organisms (world m) !! p.
Proof.
  intros H Hp Hh. inst_unfold.
  destruct (op_code i); inst_cases; simpl;
    rewrite ?lookup_insert_ne; try done.
  all: intros ->; eapply Hh; eauto.
Qed.

(** One instruction changes no organism's role or host reference, and
    neither adds nor removes an organism. *)
Lemma run_roles (i : Instruction) (d : Z) (m m' : Machine) (p : OrgPtr) :
  run i d m = Some m' ->
  (fun o => (org_is_host o, org_host o)) <$> organisms (world m') !! p =
  (fun o => (org_is_host o, org_host o)) <$> organisms (world m) !! p.
Proof.
  intros H. inst_unfold.
  destruct (op_code i); inst_cases; simpl; try done;
    split_insert_hyps;
    repeat match goal with
    | |- context [<[?q := _]> _ !! p] =>
        destruct (decide (q = p)) as [Hqp|Hqp];
        [rewrite Hqp, lookup_insert_eq | rewrite lookup_insert_ne by done];
        revert Hqp
    end; intros; simplify_option_eq; try done.
Qed.


Lemma run_trace_cons (c : Core) (i : Instruction) (d : Z)
    (tr : list (Core * Instruction * Z)) (m m' : Machine) :
  run_trace ((c, i, d) :: tr) m = Some m' <->
  exists m1, run i d (set_core m c) = Some m1 /\ run_trace tr m1 = Some m'.
Proof.
  simpl. destruct (run i d (set_core m c)) as [m1|]; simpl.
  - split; [intros H; by exists m1 | by intros (? & [= <-] & ?)].
  - split; [done | by intros (? & ? & _)].
Qed.

End StepLemmas.

(** ** Sequences of instructions *)

(** X1. Whatever instructions are executed, both stacks stay within their
    capacity of 16 cells. *)
Theorem trace_stacks_bounded `{F : FloatOps} (tr : list (Core * Instruction * Z))
    (m m' : Machine) :
  run_trace tr m = Some m' ->
  stacks_bounded (state m) -> stacks_bounded (state m').
Proof.
  revert m. induction tr as [|[[c i] d] tr IH]; intros m H Hb.
  - by injection H as <-.
  - apply run_trace_cons in H as (m1 & H1 & H2).
    apply (IH m1 H2). by apply (run_stacks_bounded _ _ _ _ H1).
Qed.

(** X2. Executing instructions never writes the jump table, the candidate
    location, the address of the owning organism, the configuration or the
    task set: no instruction body assigns to any of them. *)
Theorem trace_never_writes `{F : FloatOps} (tr : list (Core * Instruction * Z))
    (m m' : Machine) :
  run_trace tr m = Some m' ->
  jump_table (state m') = jump_table (state m) /\
  location (state m') = location (state m) /\
  host (state m') = host (state m) /\
  config (world m') = config (world m) /\
  task_set (world m') = task_set (world m).
Proof.
  revert m. induction tr as [|[[c i] d] tr IH]; intros m H.
  - by injection H as <-.
  - apply run_trace_cons in H as (m1 & H1 & H2).
    apply run_state_frame in H1. apply IH in H2. simpl in H1.
    destruct H1 as (<- & <- & <- & <- & <-). exact H2.
Qed.

(** X5. Whatever instructions an organism executes, the reproduction queue
    grows by at most one entry, and that entry is the organism at its
    location, with the marker set to the entry's index. When a reproduction
    is already pending or the location is invalid, the queue and the marker
    do not change at all. *)
Theorem trace_reproduces_at_most_once `{F : FloatOps}
    (tr : list (Core * Instruction * Z)) (m m' : Machine) :
  run_trace tr m = Some m' ->
  ((in_progress_repro (state m) <> -1 \/ IsValid (location (state m)) = false) ->
   to_reproduce (world m') = to_reproduce (world m) /\
   in_progress_repro (state m') = in_progress_repro (state m)) /\
  ((to_reproduce (world m') = to_reproduce (world m) /\
    in_progress_repro (state m') = in_progress_repro (state m)) \/
   (to_reproduce (world m') =
      to_reproduce (world m) ++ [(host (state m), location (state m))] /\
    in_progress_repro (state m') = Z.of_nat (length (to_reproduce (world m))))).
Proof.
  revert m. induction tr as [|[[c i] d] tr IH]; intros m H.
  - injection H as <-. split; auto.
  - apply run_trace_cons in H as (m1 & H1 & H2).
    destruct (IH m1 H2) as [IHn IHo].
    pose proof (run_state_frame _ _ _ _ H1) as (_ & Hloc & Hhost & _).
    apply run_queue in H1. simpl in H1, Hloc, Hhost.
    destruct H1 as [[Hq Hm] | (Hp & Hv & Hq & Hm)].
    + rewrite Hq, Hm, Hloc, Hhost in *. split; assumption.
    + split.
      * intros [Hn | Hn]; [done | congruence].
      * right. rewrite <- Hq, <- Hm. apply IHn. left. lia.
Qed.

(** X6. Whatever instructions an organism executes, no organism is added to
    or removed from the store and no role or host reference changes; and an
    organism that is neither the executing one nor its host is left exactly
    as it was. *)
Theorem trace_touches_self_and_host `{F : FloatOps}
    (tr : list (Core * Instruction * Z)) (m m' : Machine) (p : OrgPtr) :
  run_trace tr m = Some m' ->
  (fun o => (org_is_host o, org_host o)) <$> organisms (world m') !! p =
  (fun o => (org_is_host o, org_host o)) <$> organisms (world m) !! p /\
  (p <> host (state m) ->
   (forall o, organisms (world m) !! host (state m) = Some o -> org_host o <> Some p) ->
   organisms (world m') !! p = organisms (world m) !! p).
Proof.
  revert m. induction tr as [|[[c i] d] tr IH]; intros m H.
  - by injection H as <-.
  - apply run_trace_cons in H as (m1 & H1 & H2).
    destruct (IH m1 H2) as [IHr IHo].
    pose proof (run_state_frame _ _ _ _ H1) as (_ & _ & Hhost & _).
    simpl in Hhost. split.
    + rewrite IHr. apply (run_roles _ _ _ _ p H1).
    + intros Hp Hh. rewrite IHo.
      * by apply (run_organisms _ _ _ _ p H1).
      * by rewrite Hhost.
      * intros o Ho. rewrite Hhost in Ho.
        pose proof (run_roles _ _ _ _ (host (state m)) H1) as Hr.
        simpl in Hr. rewrite Ho in Hr. simpl in Hr.
        destruct (organisms (world m) !! host (state m)) as [o0|] eqn:E;
          [| done].
        simpl in Hr. injection Hr as _ Hr. rewrite Hr. by apply Hh.
Qed.

(** ** Single instructions *)

(** X8. PrivateIO and SharedIO always end with the next input (the random
    draw reduced to 32 bits, or 1 when random input is off) in the operand
    register and appended at the end of the input buffer; the other
    registers and the program counter are as they were. When the scorer
    returns zero no organism is credited and nothing is recorded in the
    symbiont-earned monitor, and the organism is not looked at. *)
Theorem io_next_input `{F : FloatOps} (m : Machine) (ra : nat) (d a : Z) :
  registers (core m) !! ra = Some a ->
  let next := if RANDOM_IO_INPUT (config (world m)) then d mod 2 ^ 32 else 1 in
  let reads (m' : Machine) :=
    registers (core m') !! ra = Some next /\
    (forall r, r <> ra -> registers (core m') !! r = registers (core m) !! r) /\
    program_counter (core m') = program_counter (core m) /\
    input_buf (state m') = input_buf (state m) ++ [next] in
  let unpaid (m' : Machine) :=
    organisms (world m') = organisms (world m) /\
    SymEarnedData (world m') = SymEarnedData (world m) in
  u32 next /\
  (fneq (CheckTasks (task_set (world m)) (state m) a false) (flit 0) = false ->
   exists m', inst_PrivateIO ra d m = Some m' /\ reads m' /\ unpaid m') /\
  (fneq (CheckTasks (task_set (world m)) (state m) a true) (flit 0) = false ->
   exists m', inst_SharedIO ra d m = Some m' /\ reads m' /\ unpaid m') /\
  (forall o, organisms (world m) !! host (state m) = Some o ->
     exists m1 m2, inst_PrivateIO ra d m = Some m1 /\ reads m1 /\
                   inst_SharedIO ra d m = Some m2 /\ reads m2).
Proof.
  intros Ha next reads unpaid.
  assert (Hnext : next = next_input (world m) d) by reflexivity.
  split; [rewrite Hnext; apply next_input_u32 |].
  assert (Hr : forall w, reads {| core := write_reg (core m) ra next;
                                  state := push_input (state m) next;
                                  world := w |}).
  { intros w. unfold reads. simpl. apply lookup_lt_Some in Ha.
    split; [by apply list_lookup_insert_eq |].
    split; [| done]. intros r Hne. by apply list_lookup_insert_ne. }
  unfold inst_PrivateIO, inst_SharedIO, AddOrganismPoints, get_reg.
  rewrite Ha. simpl. rewrite !(set_reg_Some _ _ a) by done.
  split; [| split].
  - intros ->. eexists. split; [reflexivity |]. split; [apply Hr | done].
  - intros ->. eexists. split; [reflexivity |]. split; [apply Hr | done].
  - intros o Ho. rewrite Ho. simpl.
    destruct (fneq _ _), (fneq _ _), (org_is_host o); simpl;
      do 2 eexists; (split; [reflexivity |]); (split; [apply Hr |]);
      (split; [reflexivity | apply Hr]).
Qed.

(** X9. Donate and Steal do nothing when the configuration disables them,
    when the executing organism is a host, and when it is a symbiont without
    a host. *)
Theorem Donate_Steal_noop `{F : FloatOps} (m : Machine) :
  (DONATION_STEAL_INST (config (world m)) = false ->
   inst_Donate m = Some m /\ inst_Steal m = Some m) /\
  (forall o, organisms (world m) !! host (state m) = Some o ->
     org_is_host o = true \/ org_host o = None ->
     inst_Donate m = Some m /\ inst_Steal m = Some m).
Proof.
  unfold inst_Donate, inst_Steal. split.
  - intros ->. by split.
  - intros o Ho Hc. rewrite Ho. simpl.
    destruct (DONATION_STEAL_INST _); [| by split].
    destruct Hc as [-> | Hn]; [by split |].
    rewrite Hn. by destruct (org_is_host o).
Qed.

(** X10. Swap exchanges the values of its two operand registers and leaves
    every other register alone; executing it a second time restores the
    machine. *)
Theorem Swap_exchanges `{F : FloatOps} (m : Machine) (ra rb : nat) (a b : Z) :
  registers (core m) !! ra = Some a ->
  registers (core m) !! rb = Some b ->
  exists m1, inst_Swap ra rb m = Some m1 /\
    registers (core m1) !! ra = Some b /\
    registers (core m1) !! rb = Some a /\
    (forall r, r <> ra -> r <> rb ->
       registers (core m1) !! r = registers (core m) !! r) /\
    inst_Swap ra rb m1 = Some m.
Proof.
  intros Ha Hb.
  pose proof (lookup_lt_Some _ _ _ Ha) as La.
  pose proof (lookup_lt_Some _ _ _ Hb) as Lb.
  unfold inst_Swap, get_reg, set_reg.
  rewrite Ha, Hb. simpl.
  rewrite decide_True by done. simpl.
  rewrite decide_True by (by rewrite length_insert). simpl.
  eexists. split; [reflexivity |]. simpl.
  assert (H1 : <[rb:=a]> (<[ra:=b]> (registers (core m))) !! ra = Some b).
  { destruct (decide (ra = rb)) as [->|Hne].
    - rewrite list_lookup_insert_eq by (by rewrite length_insert). congruence.
    - rewrite list_lookup_insert_ne by done. by rewrite list_lookup_insert_eq. }
  assert (H2 : <[rb:=a]> (<[ra:=b]> (registers (core m))) !! rb = Some a).
  { rewrite list_lookup_insert_eq; [done | by rewrite length_insert]. }
  split; [exact H1 |]. split; [exact H2 |]. split.
  - intros r Hra Hrb. by rewrite !list_lookup_insert_ne.
  - rewrite H1, H2. simpl.
    rewrite decide_True by (by rewrite !length_insert). simpl.
    rewrite decide_True by (by rewrite !length_insert). simpl.
    destruct m as [[regs pc] st w]. simpl in *.
    unfold set_core, write_reg. simpl. do 3 f_equal.
    apply list_eq. intros k.
    destruct (decide (k = rb)) as [->|Hkb].
    + rewrite list_lookup_insert_eq by (by rewrite !length_insert). done.
    + rewrite list_lookup_insert_ne by done.
      destruct (decide (k = ra)) as [->|Hka].
      * rewrite list_lookup_insert_eq by (by rewrite !length_insert). done.
      * by rewrite !list_lookup_insert_ne.
Qed.

(** X11. SwapStack exchanges the two stacks and is its own inverse, so a
    Push between two SwapStacks lands on the secondary stack (up to its own
    capacity of 16) and leaves the primary stack as it was. *)
Theorem SwapStack_secondary `{F : FloatOps} (m : Machine) (ra : nat) (a : Z) :
  registers (core m) !! ra = Some a ->
  exists m1 m2 m3,
    inst_SwapStack m = Some m1 /\ inst_Push ra m1 = Some m2 /\
    inst_SwapStack m2 = Some m3 /\
    inst_SwapStack m1 = Some m /\
    stack (state m3) = stack (state m) /\
    stack2 (state m3) =
      (if decide (length (stack2 (state m)) < 16)%nat
       then stack2 (state m) ++ [a] else stack2 (state m)).
Proof.
  intros Ha.
  exists (set_state m (swap_stacks (state m))).
  unfold inst_SwapStack, inst_Push, get_reg. simpl. rewrite Ha. simpl.
  assert (Hinv : set_state (set_state m (swap_stacks (state m)))
                   (swap_stacks (swap_stacks (state m))) = m)
    by (by destruct m as [c [] w]).
  destruct (decide (length (stack2 (state m)) < 16)%nat); simpl;
    do 2 eexists; (split; [reflexivity |]); (split; [reflexivity |]);
    (split; [reflexivity |]); (split; [by rewrite Hinv | by split]).
Qed.

(** ** Draining an internal environment *)

Section Drain.

Context {F : FloatOps}.
Variable env : CPUState -> list Z.
Variable set_env : CPUState -> list Z -> CPUState.
Hypothesis env_set : forall s l, env (set_env s l) = l.
Hypothesis env_push : forall s v, env (push_input s v) = env s.
Hypothesis host_set : forall s l, host (set_env s l) = host s.
Hypothesis input_set : forall s l, input_buf (set_env s l) = input_buf s.

(** Reuptakes of an environment holding [rest ++ vs] deliver [vs] from the
    back. *)
Lemma reuptake_drains (ra : nat) (vs : list Z) :
  forall (rest : list Z) (m : Machine),
    (ra < length (registers (core m)))%nat ->
    is_Some (organisms (world m) !! host (state m)) ->
    env (state m) = rest ++ vs ->
    exists m',
      collect (reuptake env set_env ra) (length vs) ra m = Some (rev vs, m') /\
      env (state m') = rest /\
      input_buf (state m') = input_buf (state m) ++ rev vs /\
      length (registers (core m')) = length (registers (core m)) /\
      host (state m') = host (state m) /\
      is_Some (organisms (world m') !! host (state m')).
Proof.
  induction vs as [|v vs IH] using rev_ind; intros rest m Hra [o Ho] He.
  - exists m. rewrite app_nil_r in *. simpl. by eauto 10.
  - rewrite app_assoc in He.
    rewrite length_app, Nat.add_comm. simpl.
    destruct (lookup_lt_is_Some_2 _ _ Hra) as [a Ha].
    pose proof (AddOrganismPoints_Some (state m) (world m) a o Ho) as Hw.
    simpl in Hw.
    destruct (AddOrganismPoints_role _ _ _ _ _ Ho Hw) as (o1 & Ho1 & _).
    destruct (reuptake_effect env set_env m ra a o _ Ha Ho Hw) as [Hstep _].
    rewrite (Hstep _ _ He). simpl.
    unfold get_reg. simpl. rewrite list_lookup_insert_eq by done. simpl.
    match goal with
    | |- context [collect _ _ _ ?m1] =>
        destruct (IH rest m1) as (m' & -> & He' & Hb' & Hr' & Hh' & Ho')
    end.
    + simpl. by rewrite length_insert.
    + simpl. rewrite host_set.
      destruct (org_is_host o); simpl; by eexists.
    + simpl. by rewrite env_push, env_set.
    + simpl in *. exists m'. rewrite rev_unit.
      split; [done |]. split; [done |].
      split; [by rewrite Hb', input_set, <- app_assoc |].
      split; [by rewrite Hr', length_insert |].
      split; [by rewrite Hh', host_set | done].
Qed.

End Drain.

(** X20. Executed as many times as the internal environment has values,
    ReuptakePublic (respectively ReuptakePrivate) delivers the values to the
    register last-in first-out, appends them in that order to the input
    buffer and leaves the environment empty; one more reuptake then writes 0
    to the register and leaves the state as it is. *)
Theorem reuptake_drains_environment `{F : FloatOps} (m : Machine) (ra : nat) :
  (ra < length (registers (core m)))%nat ->
  is_Some (organisms (world m) !! host (state m)) ->
  (exists m',
     collect (inst_ReuptakePublic ra) (length (internalEnvironment (state m))) ra m
       = Some (rev (internalEnvironment (state m)), m') /\
     internalEnvironment (state m') = [] /\
     input_buf (state m') = input_buf (state m) ++ rev (internalEnvironment (state m)) /\
     exists m'', inst_ReuptakePublic ra m' = Some m'' /\
       get_reg (core m'') ra = Some 0 /\ state m'' = state m') /\
  (exists m',
     collect (inst_ReuptakePrivate ra) (length (internalEnvironmentPrivate (state m))) ra m
       = Some (rev (internalEnvironmentPrivate (state m)), m') /\
     internalEnvironmentPrivate (state m') = [] /\
     input_buf (state m') =
       input_buf (state m) ++ rev (internalEnvironmentPrivate (state m))).
Proof.
  intros Hra Ho. split.
  - destruct (reuptake_drains internalEnvironment set_internalEnvironment
                (fun _ _ => eq_refl) (fun _ _ => eq_refl) (fun _ _ => eq_refl)
                (fun _ _ => eq_refl) ra (internalEnvironment (state m)) [] m
                Hra Ho eq_refl) as (m' & Hc & He & Hb & Hr & Hh & [o' Ho']).
    exists m'. split; [exact Hc |]. split; [exact He |].
    split; [exact Hb |].
    assert (Hra' : (ra < length (registers (core m')))%nat) by lia.
    destruct (lookup_lt_is_Some_2 _ _ Hra') as [a Ha].
    pose proof (AddOrganismPoints_Some (state m') (world m') a o' Ho') as Hw.
    simpl in Hw.
    destruct (reuptake_effect internalEnvironment set_internalEnvironment
                m' ra a o' _ Ha Ho' Hw) as [_ Hz].
    eexists. split; [exact (Hz He) |]. simpl. split; [| done].
    unfold get_reg. simpl. by rewrite list_lookup_insert_eq.
  - destruct (reuptake_drains internalEnvironmentPrivate
                set_internalEnvironmentPrivate
                (fun _ _ => eq_refl) (fun _ _ => eq_refl) (fun _ _ => eq_refl)
                (fun _ _ => eq_refl) ra (internalEnvironmentPrivate (state m)) [] m
                Hra Ho eq_refl) as (m' & Hc & He & Hb & _).
    exists m'. by repeat split.
Qed.

(** ** Rebuilding the jump table *)

(** The loop writes nothing at a position that holds no jump instruction. *)
Lemma fill_jump_table_other (table : JumpTable) (prog : Program) :
  forall (idx : nat) (jt jt' : list nat) (j : nat),
    fill_jump_table table prog idx jt = Some jt' ->
    (forall ins, prog !! (j - idx)%nat = Some ins -> (idx <= j)%nat ->
                 is_jump ins = false) ->
    jt' !! j = jt !! j.
Proof.
  induction prog as [|ins0 rest IH]; intros idx jt jt' j H Hj; simpl in H.
  - by injection H as <-.
  - assert (Hrest : forall ins, rest !! (j - S idx)%nat = Some ins ->
                      (S idx <= j)%nat -> is_jump ins = false).
    { intros ins Hi Hle. apply Hj; [| lia].
      replace (j - idx)%nat with (S (j - S idx)) by lia. exact Hi. }
    destruct (is_jump ins0) eqn:E.
    + destruct (vec_set jt idx (jump_target table ins0 idx)) as [jt1|] eqn:Ev;
        simpl in H; [| done].
      apply vec_set_Some in Ev as [_ ->].
      rewrite (IH _ _ _ j H Hrest).
      apply list_lookup_insert_ne. intros <-.
      specialize (Hj ins0). rewrite Nat.sub_diag in Hj.
      specialize (Hj eq_refl (Nat.le_refl _)). congruence.
    + by apply (IH _ _ _ j H).
Qed.

(** On a table that already holds the target of every jump instruction, the
    loop changes nothing. *)
Lemma fill_jump_table_fixpoint (table : JumpTable) (prog : Program) :
  forall (idx : nat) (jt : list nat),
    (forall i ins, prog !! i = Some ins -> is_jump ins = true ->
       jt !! (idx + i)%nat = Some (jump_target table ins (idx + i))) ->
    fill_jump_table table prog idx jt = Some jt.
Proof.
  induction prog as [|ins0 rest IH]; intros idx jt H; [done |].
  simpl.
  assert (Hrest : forall i ins, rest !! i = Some ins -> is_jump ins = true ->
            jt !! (S idx + i)%nat = Some (jump_target table ins (S idx + i))).
  { intros i ins Hi Hj. specialize (H (S i) ins Hi Hj).
    by replace (idx + S i)%nat with (S idx + i)%nat in H by lia. }
  destruct (is_jump ins0) eqn:E; [| by apply IH].
  specialize (H 0%nat ins0 eq_refl E). rewrite Nat.add_0_r in H.
  unfold vec_set. rewrite decide_True by (by apply lookup_lt_Some in H).
  simpl. rewrite list_insert_id by done. by apply IH.
Qed.

Section Rebuild.

Context {F : FloatOps}.
Variable START_TAG : Tag.
Variable InitializeAnchors : Program -> JumpTable.
Variable launch_core : Tag -> JumpTable -> Core.

Local Abbreviation InitState := (InitializeState START_TAG InitializeAnchors launch_core).

(** X12. Rebuilding twice is rebuilding once: [InitializeState] applied to
    its own result returns it unchanged. *)
Theorem InitializeState_idempotent (w : SGPWorld) (c c' : CPU) :
  InitState w c = Some c' -> InitState w c' = Some c'.
Proof.
  intros H.
  pose proof (InitializeState_Some _ _ _ _ _ _ H) as [Hprog Hfill].
  pose proof (fill_jump_table_length _ _ _ _ _ Hfill) as Hlen.
  rewrite length_resize in Hlen.
  assert (Hfix : fill_jump_table (InitializeAnchors (program c)) (program c) 0
                   (jump_table (cpu_state c')) = Some (jump_table (cpu_state c'))).
  { apply fill_jump_table_fixpoint. intros i ins Hi Hj.
    apply (fill_jump_table_entry _ _ _ _ _ i ins Hfill Hi Hj). }
  revert H. unfold InitializeState, HasActiveCore. simpl.
  destruct (active_core (cpu c)) as [k|]; simpl;
    (destruct (fill_jump_table _ _ _ _) as [jt|]; simpl; [| done]);
    intros [= <-]; simpl in *;
    rewrite <- Hlen at 1; rewrite resize_all, Hfix; simpl;
    do 2 f_equal; unfold set_completed, set_jump_table; simpl;
    f_equal; rewrite resize_idemp; done.
Qed.


(** X13. The rebuild writes only at the positions of jump instructions. At
    any other position the entry is the one of the old table resized to 100
    (zero where the old table was shorter); in particular, when the old
    table already had 100 entries, as after a first build, the old entry
    survives a Mutate that turns a jump instruction into another one. *)
Theorem InitializeState_other_entries (w : SGPWorld) (c c' : CPU) (j : nat) :
  InitState w c = Some c' ->
  (forall ins, program c !! j = Some ins -> is_jump ins = false) ->
  jump_table (cpu_state c') !! j =
    resize jump_table_capacity 0%nat (jump_table (cpu_state c)) !! j /\
  (length (jump_table (cpu_state c)) = jump_table_capacity ->
   jump_table (cpu_state c') !! j = jump_table (cpu_state c) !! j).
Proof.
  intros H Hj. apply InitializeState_Some in H as [_ Hfill].
  assert (E : jump_table (cpu_state c') !! j =
              resize jump_table_capacity 0%nat (jump_table (cpu_state c)) !! j).
  { apply (fill_jump_table_other _ _ _ _ _ j Hfill).
    intros ins Hi _. rewrite Nat.sub_0_r in Hi. by apply Hj. }
  split; [exact E |].
  intros Hlen. rewrite E, <- Hlen. by rewrite resize_all.
Qed.


(** X15. On a machine whose state carries the table [InitializeState] built
    for the program, executing the jump instruction at position [i] with the
    program counter at [i] is defined, and moves the program counter exactly
    when the condition holds: to the position of the first-ranked matching
    anchor, or to [i + 1] when no anchor matches. The registers are left as
    they were. *)
Theorem jump_lands_on_resolved_target (w : SGPWorld) (c c' : CPU)
    (i : nat) (ins : Instruction) (d : Z) (m : Machine) (a b : Z) :
  InitState w c = Some c' ->
  program c !! i = Some ins ->
  is_jump ins = true ->
  state m = cpu_state c' ->
  program_counter (core m) = i ->
  registers (core m) !! arg0 ins = Some a ->
  registers (core m) !! arg1 ins = Some b ->
  let target := jump_target (InitializeAnchors (program c)) ins i in
  let taken := if bool_decide (op_code ins = JumpIfNEq)
               then negb (a =? b) else a <? b in
  run ins d m =
    Some (if taken then set_core m (JumpToIndex (core m) target) else m) /\
  (MatchRegulated (InitializeAnchors (program c)) (tag ins) = [] ->
   target = (i + 1)%nat) /\
  (forall u rest,
     MatchRegulated (InitializeAnchors (program c)) (tag ins) = u :: rest ->
     target = GetVal (InitializeAnchors (program c)) u) /\
  (exists m', run ins d m = Some m' /\
     program_counter (core m') = (if taken then target else i) /\
     registers (core m') = registers (core m)).
Proof.
  intros H Hi Hj Hs Hpc Ha Hb target taken.
  apply InitializeState_Some in H as [_ Hfill].
  pose proof (fill_jump_table_entry _ _ _ _ _ i ins Hfill Hi Hj) as He.
  simpl in He. fold target in He. rewrite <- Hs in He.
  assert (Hrun : run ins d m =
            Some (if taken then set_core m (JumpToIndex (core m) target) else m)).
  { unfold run, is_jump, taken in *.
    destruct (op_code ins); try done;
      unfold inst_JumpIfNEq, inst_JumpIfLess, get_reg, GetProgramCounter;
      rewrite Ha, Hb; simpl; rewrite Hpc, He; simpl;
      [by destruct (a =? b) | by destruct (a <? b)]. }
  split; [exact Hrun |]. split; [| split].
  - intros Hm. unfold target, jump_target. by rewrite Hm.
  - intros u rest Hm. unfold target, jump_target. by rewrite Hm.
  - rewrite Hrun. eexists. split; [reflexivity |].
    by destruct taken.
Qed.

Lemma PrintOp_is_Some (ins : Instruction) (table : JumpTable) :
  is_Some (PrintOp ins PrintCode_arities table).
Proof.
  unfold PrintOp.
  generalize (spaces (pad_count (GetOpName (op_code ins)))). intros sp.
  destruct (op_code ins); simpl; by eexists.
Qed.

Lemma PrintCode_from_None (k : Cpu) (prog : Program) :
  PrintCode_from k prog = None <-> active_core k = None /\ prog <> [].
Proof.
  induction prog as [|ins rest IH]; simpl.
  - split; [done | by intros [_ ?]].
  - destruct (active_core k) as [core0|] eqn:E; simpl; [| by split].
    destruct (PrintOp_is_Some ins (global_jump_table k)) as [line ->]. simpl.
    destruct (PrintCode_from k rest) as [more|] eqn:Er; simpl.
    + split; [done | by intros [? _]].
    + exfalso. destruct (proj1 IH eq_refl) as [? _]. congruence.
Qed.

(** X19. [PrintCode] reads the active core once per instruction: it is
    undefined exactly for a non-empty program on a CPU without an active
    core, and it is always defined on what [InitializeState] returns. *)
Theorem PrintCode_defined (w : SGPWorld) (c c' : CPU) :
  (PrintCode c = None <-> active_core (cpu c) = None /\ program c <> []) /\
  (InitState w c = Some c' -> is_Some (PrintCode c')).
Proof.
  split; [apply PrintCode_from_None |].
  intros H.
  destruct (PrintCode c') as [s|] eqn:E; [by eexists |].
  apply PrintCode_from_None in E as [E _]. exfalso.
  revert H E. unfold InitializeState, HasActiveCore. simpl.
  destruct (active_core (cpu c)); simpl;
    (destruct (fill_jump_table _ _ _ _) as [jt|]; simpl; [| done]);
    intros [= <-]; simpl; done.
Qed.

End Rebuild.

(** ** Printing *)

Lemma string_length_app (s t : string) :
  String.length (s +:+ t) = (String.length s + String.length t)%nat.
Proof. induction s as [|c s IH]; simpl; [done | by rewrite IH]. Qed.

Lemma string_app_assoc (s t r : string) : (s +:+ t) +:+ r = s +:+ (t +:+ r).
Proof.
  induction s as [|c s IH]; [done |].
  change (String c ((s +:+ t) +:+ r) = String c (s +:+ (t +:+ r))).
  by rewrite IH.
Qed.

Lemma spaces_length (n : N) : String.length (spaces n) = N.to_nat n.
Proof.
  unfold spaces.
  apply (N.iter_ind _ _ _ (fun k s => String.length s = N.to_nat k)).
  - done.
  - intros k s IH. simpl. rewrite IH. lia.
Qed.

Lemma to_lower_length (s : string) : String.length (to_lower s) = String.length s.
Proof. induction s as [|c s IH]; simpl; [done | by rewrite IH]. Qed.

Lemma ascii_of_nat_inj (a b : nat) :
  (a < 256)%nat -> (b < 256)%nat -> ascii_of_nat a = ascii_of_nat b -> a = b.
Proof.
  intros Ha Hb H. apply (f_equal nat_of_ascii) in H.
  by rewrite !nat_ascii_embedding in H.
Qed.

Lemma tag_code_inj (u v : nat) :
  (u < 676)%nat -> (v < 676)%nat -> tag_code u = tag_code v -> u = v.
Proof.
  intros Hu Hv. unfold tag_code.
  assert (Qu : (u / 26 < 26)%nat)
    by (apply Nat.Div0.div_lt_upper_bound; exact Hu).
  assert (Qv : (v / 26 < 26)%nat)
    by (apply Nat.Div0.div_lt_upper_bound; exact Hv).
  assert (Ru : (u mod 26 < 26)%nat) by (by apply Nat.mod_upper_bound).
  assert (Rv : (v mod 26 < 26)%nat) by (by apply Nat.mod_upper_bound).
  pose proof (Nat.div_mod_eq u 26) as Eu.
  pose proof (Nat.div_mod_eq v 26) as Ev.
  revert Qu Qv Ru Rv Eu Ev.
  generalize (u / 26)%nat (u mod 26)%nat (v / 26)%nat (v mod 26)%nat.
  intros qu ru qv rv Qu Qv Ru Rv Eu Ev H.
  assert (E1 : (65 + qu = 65 + qv)%nat)
    by (apply ascii_of_nat_inj; [lia | lia | congruence]).
  assert (E2 : (65 + ru = 65 + rv)%nat)
    by (apply ascii_of_nat_inj; [lia | lia | congruence]).
  lia.
Qed.

(** X16. When the anchors a table returns have ids below 676, the tag name
    [PrintOp] prints determines the best match and is determined by it: two
    tags print the same name exactly when they resolve to the same anchor,
    or both to none. *)
Theorem tag_name_identifies_anchor (table : JumpTable) (t1 t2 : Tag) :
  (forall t u rest, MatchRegulated table t = u :: rest -> (u < 676)%nat) ->
  tag_name table t1 = tag_name table t2 <->
  head (MatchRegulated table t1) = head (MatchRegulated table t2).
Proof.
  intros Hb. unfold tag_name.
  destruct (MatchRegulated table t1) as [|u1 r1] eqn:E1,
           (MatchRegulated table t2) as [|u2 r2] eqn:E2; simpl.
  - done.
  - split; [| done]. unfold tag_code. intros [=].
  - split; [| done]. unfold tag_code. intros [=].
  - split.
    + intros H. f_equal. eapply tag_code_inj; eauto.
    + by intros [= ->].
Qed.

Lemma PrintOp_shape (ins : Instruction) (table : JumpTable) :
  exists body, PrintOp ins PrintCode_arities table = Some (body +:+ String "010" EmptyString) /\
    (op_code ins = InternalShared -> body = "<unknown InternalShared>") /\
    (op_code ins = GlobalAnchor -> body = tag_name table (tag ins) +:+ ":") /\
    (has_mnemonic (op_code ins) = true ->
     exists ops, body = "    " +:+ to_lower (GetOpName (op_code ins)) +:+
                        spaces (pad_count (GetOpName (op_code ins))) +:+ ops).
Proof.
  unfold PrintOp.
  generalize (spaces (pad_count (GetOpName (op_code ins)))). intros sp.
  destruct (op_code ins); simpl; eexists; (split; [reflexivity |]);
    (split; [done |]); (split; [done |]); try done; intros _; by eexists.
Qed.

Lemma pad_count_cases (op : OpCode) :
  let n := N.of_nat (String.length (GetOpName op)) in
  (long_name op = false -> has_mnemonic op = true ->
     (n <= 12)%N /\ pad_count (GetOpName op) = (12 - n)%N) /\
  (long_name op = true ->
     (12 < n)%N /\ pad_count (GetOpName op) = (2 ^ 64 + 12 - n)%N).
Proof.
  destruct op; split; intros; try done; split; reflexivity || done.
Qed.

Lemma prefix_cons (a b : ascii) (s1 s2 : string) :
  String.prefix (String a s1) (String b s2) =
    if Ascii.ascii_dec a b then String.prefix s1 s2 else false.
Proof. reflexivity. Qed.

Lemma prefix_unknown_mnemonic (rest : string) :
  String.prefix "<unknown" ("    " +:+ rest) = false.
Proof.
  change ("    " +:+ rest) with (String " " ("   " +:+ rest)).
  change "<unknown" with (String "<" "unknown").
  rewrite prefix_cons. by destruct (Ascii.ascii_dec "<" " ").
Qed.

Lemma prefix_unknown_tag (table : JumpTable) (t : Tag) :
  String.prefix "<unknown" (tag_name table t +:+ ":" +:+ String "010" EmptyString) = false.
Proof.
  unfold tag_name. destruct (MatchRegulated table t) as [|u r]; [reflexivity |].
  unfold tag_code.
  assert (Ru : (u mod 26 < 26)%nat) by (by apply Nat.mod_upper_bound).
  revert Ru. generalize (u mod 26)%nat (ascii_of_nat (65 + u / 26)).
  intros r0 c Hr.
  change (String.prefix (String "<" (String "u" "nknown"))
            (String c (String (ascii_of_nat (65 + r0))
                         (":" +:+ String "010" EmptyString))) = false).
  rewrite !prefix_cons.
  destruct (Ascii.ascii_dec "<" c); [| reflexivity].
  destruct (Ascii.ascii_dec "u" (ascii_of_nat (65 + r0))) as [E|]; [| reflexivity].
  exfalso. change "u"%char with (ascii_of_nat 117) in E.
  apply ascii_of_nat_inj in E; lia.
Qed.

(** X17. With the arities of [PrintCode], [PrintOp] prints a line for every
    instruction, and the line starts with [<unknown] exactly for
    InternalShared, the one instruction missing from the table. *)
Theorem PrintOp_unknown_only_InternalShared (ins : Instruction) (table : JumpTable) :
  exists line, PrintOp ins PrintCode_arities table = Some line /\
    (op_code ins = InternalShared ->
       line = "<unknown InternalShared>" +:+ String "010" EmptyString) /\
    (String.prefix "<unknown" line = true <-> op_code ins = InternalShared).
Proof.
  destruct (PrintOp_shape ins table) as (body & Hp & Hu & Ha & Hm).
  eexists. split; [exact Hp |]. split; [by intros ->%Hu |].
  destruct (decide (op_code ins = InternalShared)) as [E|E].
  - rewrite (Hu E). by split.
  - split; [| done]. intros Hpre. exfalso.
    destruct (decide (op_code ins = GlobalAnchor)) as [Eg|Eg].
    + rewrite (Ha Eg) in Hpre.
      rewrite string_app_assoc in Hpre.
      by rewrite prefix_unknown_tag in Hpre.
    + destruct Hm as [ops Hops].
      { unfold has_mnemonic. by rewrite !bool_decide_eq_false_2. }
      rewrite Hops in Hpre.
      rewrite string_app_assoc in Hpre.
      by rewrite prefix_unknown_mnemonic in Hpre.
Qed.

(** X18. For every instruction printed with a mnemonic, the line is the
    mnemonic field, the operands and a newline. The field is 16 characters
    wide unless the name is longer than 12 characters (ReuptakePublic,
    ReuptakePrivate, InternalPrivate): there [12 - name.length()] wraps
    around in [size_t] and the field has [2^64 + 16] characters. *)
Theorem PrintOp_padding (ins : Instruction) (table : JumpTable) :
  has_mnemonic (op_code ins) = true ->
  let name := GetOpName (op_code ins) in
  let field := "    " +:+ to_lower name +:+ spaces (pad_count name) in
  exists ops, PrintOp ins PrintCode_arities table =
                Some ((field +:+ ops) +:+ String "010" EmptyString) /\
    (long_name (op_code ins) = false -> String.length field = 16%nat) /\
    (long_name (op_code ins) = true ->
       N.of_nat (String.length field) = (2 ^ 64 + 16)%N).
Proof.
  intros Hm name field.
  destruct (PrintOp_shape ins table) as (body & Hp & _ & _ & Hs).
  destruct (Hs Hm) as [ops ->].
  exists ops. split.
  { rewrite Hp. unfold field. by rewrite !string_app_assoc. }
  destruct (pad_count_cases (op_code ins)) as [Hshort Hlong].
  unfold field. rewrite !string_length_app, to_lower_length, spaces_length.
  fold name in Hshort, Hlong.
  change (String.length "    ") with 4%nat.
  split; intros Hl.
  - destruct (Hshort Hl Hm) as [Hn ->]. lia.
  - destruct (Hlong Hl) as [Hn ->].
    assert (N.of_nat (String.length name) <= 15)%N
      by (unfold name; destruct (op_code ins); done).
    assert (16 <= 2 ^ 64)%N by (apply N.leb_le; reflexivity).
    lia.
Qed.

(** ** The properties at concrete inputs *)

(** Name the result of a concrete run, ruling out failure by evaluation. *)
Ltac name_result :=
  match goal with
  | |- exists r, ?run = Some r /\ _ =>
      let E := fresh "Erun" in
      destruct run as [r|] eqn:E;
      [exists r; split; [reflexivity |] | by vm_compute in E]
  end.

Lemma demo_machine_u32 : machine_u32 (demo_machine 0 0 5 12 0).
Proof.
  unfold machine_u32, state_u32. simpl.
  repeat split; repeat constructor; unfold u32; lia.
Qed.

Lemma trace_stacks_bounded_witness :
  exists m', run_trace demo_trace (demo_machine 1 0 0 0 0) = Some m' /\
             stacks_bounded (state m').
Proof.
  name_result.
  eapply trace_stacks_bounded; [exact Erun |].
  unfold stacks_bounded. simpl. lia.
Defined.

Lemma trace_never_writes_witness :
  exists m', run_trace demo_trace (demo_machine 1 0 0 0 0) = Some m' /\
             jump_table (state m') = replicate 100 7%nat /\
             location (state m') = {| pos_index := 3; pos_pop_id := 0 |} /\
             host (state m') = 1%nat /\
             config (world m') = demo_config /\
             task_set (world m') = demo_tasks.
Proof.
  name_result.
  exact (trace_never_writes demo_trace (demo_machine 1 0 0 0 0) _ Erun).
Defined.

Lemma step_program_counter_witness :
  exists m', run (jump_ins JumpIfNEq 42) 0 (demo_machine 0 5 6 0 2) = Some m' /\
             length (registers (core m')) = 3%nat.
Proof.
  name_result.
  exact (proj1 (step_program_counter (jump_ins JumpIfNEq 42) 0
                  (demo_machine 0 5 6 0 2) _ Erun)).
Defined.

Lemma step_keeps_u32_witness :
  exists m', run (mk_ins Decrement 0 0 0) 0 (demo_machine 0 0 5 12 0) = Some m' /\
             machine_u32 m'.
Proof.
  name_result.
  exact (step_keeps_u32 (mk_ins Decrement 0 0 0) 0 (demo_machine 0 0 5 12 0) _
           Erun demo_machine_u32).
Defined.

Lemma trace_reproduces_at_most_once_witness :
  exists m', run_trace demo_trace (demo_machine 1 0 0 0 0) = Some m' /\
    ((to_reproduce (world m') = [] /\ in_progress_repro (state m') = -1) \/
     (to_reproduce (world m') = [(1%nat, location (demo_state 1))] /\
      in_progress_repro (state m') = 0)).
Proof.
  name_result.
  exact (proj2 (trace_reproduces_at_most_once demo_trace
                  (demo_machine 1 0 0 0 0) _ Erun)).
Defined.

Lemma trace_touches_self_and_host_witness :
  exists m', run_trace demo_trace (demo_machine 1 0 0 0 0) = Some m' /\
    organisms (world m') !! 7%nat = None.
Proof.
  name_result.
  destruct (trace_touches_self_and_host demo_trace (demo_machine 1 0 0 0 0) _
              7%nat Erun) as [_ Ho].
  apply Ho; [simpl; lia |].
  intros o [= <-]. simpl. intros [= ?].
Defined.

Lemma io_next_input_witness :
  u32 1 /\
  exists m1 m2,
    inst_PrivateIO 0 7 (demo_machine 0 5 8 9 4) = Some m1 /\
    inst_SharedIO 0 7 (demo_machine 0 5 8 9 4) = Some m2 /\
    registers (core m1) !! 0%nat = Some 1 /\
    registers (core m1) !! 1%nat = Some 8 /\
    input_buf (state m1) = [1] /\
    registers (core m2) !! 0%nat = Some 1 /\
    program_counter (core m2) = 4%nat /\
    input_buf (state m2) = [1].
Proof.
  destruct (io_next_input (demo_machine 0 5 8 9 4) 0 7 5 eq_refl)
    as (Hu & _ & _ & Hio).
  split; [exact Hu |].
  destruct (Hio demo_host eq_refl)
    as (m1 & m2 & R1 & (V1 & O1 & _ & B1) & R2 & (V2 & _ & P2 & B2)).
  exists m1, m2.
  split; [exact R1 |]. split; [exact R2 |].
  split; [exact V1 |]. split; [exact (O1 1%nat ltac:(lia)) |].
  split; [exact B1 |]. split; [exact V2 |]. split; [exact P2 | exact B2].
Defined.

Lemma Swap_exchanges_witness :
  exists m1, inst_Swap 0 1 (demo_machine 0 5 6 7 0) = Some m1 /\
    registers (core m1) !! 0%nat = Some 6 /\
    registers (core m1) !! 1%nat = Some 5 /\
    inst_Swap 0 1 m1 = Some (demo_machine 0 5 6 7 0).
Proof.
  destruct (Swap_exchanges (demo_machine 0 5 6 7 0) 0 1 5 6 eq_refl eq_refl)
    as (m1 & H1 & H2 & H3 & _ & H4).
  exists m1. repeat split; assumption.
Defined.

Lemma SwapStack_secondary_witness :
  exists m1 m2 m3,
    inst_SwapStack (demo_machine 0 5 6 7 0) = Some m1 /\
    inst_Push 0 m1 = Some m2 /\ inst_SwapStack m2 = Some m3 /\
    stack (state m3) = [] /\ stack2 (state m3) = [5].
Proof.
  destruct (SwapStack_secondary (demo_machine 0 5 6 7 0) 0 5 eq_refl)
    as (m1 & m2 & m3 & H1 & H2 & H3 & _ & H4 & H5).
  exists m1, m2, m3. repeat split; assumption.
Defined.

Lemma InitializeState_idempotent_witness :
  exists c',
    InitializeState 0 (fun _ => demo_anchors) demo_launch demo_world demo_cpu = Some c' /\
    InitializeState 0 (fun _ => demo_anchors) demo_launch demo_world c' = Some c'.
Proof.
  name_result.
  exact (InitializeState_idempotent 0 (fun _ => demo_anchors) demo_launch
           demo_world demo_cpu _ Erun).
Defined.

Lemma InitializeState_other_entries_witness :
  exists c',
    InitializeState 0 (fun _ => demo_anchors) demo_launch demo_world demo_cpu = Some c' /\
    jump_table (cpu_state c') !! 1%nat = Some 7%nat /\
    jump_table (cpu_state c') !! 50%nat = Some 7%nat.
Proof.
  name_result. split.
  - refine (proj2 (InitializeState_other_entries 0 (fun _ => demo_anchors)
                     demo_launch demo_world demo_cpu _ 1%nat Erun _) eq_refl).
    by intros ins [= <-].
  - refine (proj2 (InitializeState_other_entries 0 (fun _ => demo_anchors)
                     demo_launch demo_world demo_cpu _ 50%nat Erun _) eq_refl).
    intros ins [=].
Defined.


Lemma jump_lands_on_resolved_target_witness :
  exists c',
    InitializeState 0 (fun _ => demo_anchors) demo_launch demo_world demo_cpu = Some c' /\
    (let m := {| core := demo_core 5 6 0 2; state := cpu_state c';
                 world := demo_world |} in
     run (jump_ins JumpIfLess 5) 0 m = Some (set_core m (JumpToIndex (core m) 3)) /\
     exists m', run (jump_ins JumpIfLess 5) 0 m = Some m' /\
       program_counter (core m') = 3%nat /\ registers (core m') = [5; 6; 0]) /\
    (let m := {| core := demo_core 5 6 0 0; state := cpu_state c';
                 world := demo_world |} in
     exists m', run (jump_ins JumpIfNEq 42) 0 m = Some m' /\
       program_counter (core m') = 30%nat /\ registers (core m') = [5; 6; 0]) /\
    (let m := {| core := demo_core 6 6 0 0; state := cpu_state c';
                 world := demo_world |} in
     exists m', run (jump_ins JumpIfNEq 42) 0 m = Some m' /\
       program_counter (core m') = 0%nat /\ registers (core m') = [6; 6; 0]).
Proof.
  name_result. split; [| split]; intros m.
  - destruct (jump_lands_on_resolved_target 0 (fun _ => demo_anchors)
                demo_launch demo_world demo_cpu _ 2%nat (jump_ins JumpIfLess 5)
                0 m 5 6 Erun eq_refl eq_refl eq_refl eq_refl eq_refl
                eq_refl) as (Hrun & _ & _ & Hpc).
    split; [exact Hrun | exact Hpc].
  - exact (proj2 (proj2 (proj2
      (jump_lands_on_resolved_target 0 (fun _ => demo_anchors)
         demo_launch demo_world demo_cpu _ 0%nat (jump_ins JumpIfNEq 42)
         0 m 5 6 Erun eq_refl eq_refl eq_refl eq_refl eq_refl eq_refl)))).
  - exact (proj2 (proj2 (proj2
      (jump_lands_on_resolved_target 0 (fun _ => demo_anchors)
         demo_launch demo_world demo_cpu _ 0%nat (jump_ins JumpIfNEq 42)
         0 m 6 6 Erun eq_refl eq_refl eq_refl eq_refl eq_refl eq_refl)))).
Defined.

Lemma wide_anchors_small (t : Tag) (u : nat) (rest : list nat) :
  MatchRegulated wide_anchors t = u :: rest -> (u < 676)%nat.
Proof.
  simpl. repeat case_match; intros [= <- _]; lia.
Qed.

Lemma tag_name_identifies_anchor_witness :
  tag_name wide_anchors 42 = "AD" /\
  tag_name wide_anchors 43 = "AD" /\
  tag_name wide_anchors 44 = "BE" /\
  tag_name wide_anchors 45 = "BD" /\
  tag_name wide_anchors 7 = "<nowhere>" /\
  head (MatchRegulated wide_anchors 42) = head (MatchRegulated wide_anchors 43) /\
  tag_name wide_anchors 42 <> tag_name wide_anchors 44 /\
  tag_name wide_anchors 42 <> tag_name wide_anchors 45 /\
  tag_name wide_anchors 42 <> tag_name wide_anchors 7.
Proof.
  do 5 (split; [reflexivity |]).
  split; [exact (proj1 (tag_name_identifies_anchor wide_anchors 42 43
                          wide_anchors_small) eq_refl) |].
  split; [| split]; intros H.
  - by apply (tag_name_identifies_anchor wide_anchors 42 44 wide_anchors_small) in H.
  - by apply (tag_name_identifies_anchor wide_anchors 42 45 wide_anchors_small) in H.
  - by apply (tag_name_identifies_anchor wide_anchors 42 7 wide_anchors_small) in H.
Defined.

Lemma PrintOp_padding_witness :
  let field := "    " +:+ to_lower "Increment" +:+ spaces (pad_count "Increment") in
  exists ops,
    PrintOp (mk_ins Increment 2 0 0) PrintCode_arities demo_anchors =
      Some ((field +:+ ops) +:+ String "010" EmptyString) /\
    String.length field = 16%nat.
Proof.
  intros field.
  destruct (PrintOp_padding (mk_ins Increment 2 0 0) demo_anchors eq_refl)
    as (ops & Hp & Hshort & _).
  exists ops. split; [exact Hp | exact (Hshort eq_refl)].
Defined.

Lemma reuptake_drains_environment_witness :
  exists m',
    collect (inst_ReuptakePublic 0) 2 0 (demo_machine 1 5 0 0 0) = Some ([12; 11], m') /\
    internalEnvironment (state m') = [] /\
    input_buf (state m') = [12; 11].
Proof.
  destruct (reuptake_drains_environment (demo_machine 1 5 0 0 0) 0)
    as [(m' & Hc & He & Hb & _) _].
  - simpl. lia.
  - exists demo_sym. reflexivity.
  - exists m'. split; [exact Hc |]. split; [exact He | exact Hb].
Defined.
